(** * deserialize-swap-sdk: the swap client and its error translation

    A shallow embedding of [SwapSDK.ts] and [errors.ts].  The SDK is glue
    between a remote quoting service (reached through [fetch]) and the
    Solana client library: every method performs one HTTP exchange and one
    reshaping pass over the parsed JSON.  The embedding keeps that shape:

    - JavaScript values as parsed from JSON, with the dynamic behaviour the
      SDK relies on (property reads, truthiness, [x || []], [Array.map],
      [toString], [Number]);
    - [bs58] and the string constructor of [PublicKey], which are plain
      base conversion, written out;
    - what stays opaque in the Solana library (transaction codec, key
      derivation, signing) as the fields of one interface record;
    - promises as a small monad: a trace of the exchanges with the outside
      and either a value or the exception thrown. *)

From Stdlib Require Import List String Ascii NArith ZArith Lia Bool.
From Stdlib Require Import PrimFloat SpecFloat FloatOps.
From Stdlib Require Strings.Byte.
Import ListNotations.

Local Open Scope string_scope.
Local Open Scope list_scope.

#[local] Set Warnings "-register-all,-inexact-float".

(** ** Exceptions and results *)

(** What a [throw] carries.  [Error m] is [new Error(m)]; the SDK's own
    subclass is kept apart; [TypeError] stands for the type errors raised by
    the engine and by the libraries, whose messages are not modelled. *)
Inductive exn : Type :=
| Error (message : string)
| TooManyAccountsLockError (message : string)
| TypeError.

Inductive result (A : Type) : Type :=
| Ok (a : A)
| Err (e : exn).
Arguments Ok {A} a.
Arguments Err {A} e.

Definition rbind {A B} (r : result A) (k : A -> result B) : result B :=
  match r with
  | Ok a => k a
  | Err e => Err e
  end.

Notation "'let*' x ':=' r 'in' k" := (rbind r (fun x => k))
  (at level 10, x name, r at level 200, k at level 200).

Definition is_ok {A} (r : result A) : bool :=
  match r with Ok _ => true | Err _ => false end.

(** [Array.prototype.map] with a callback that may throw: elements are
    visited from the left and the first exception ends the traversal. *)
Fixpoint mapM {A B} (f : A -> result B) (l : list A) : result (list B) :=
  match l with
  | [] => Ok []
  | a :: l' =>
      let* b := f a in
      let* bs := mapM f l' in
      Ok (b :: bs)
  end.

(** ** JavaScript values *)

(** The values that reach the SDK: what [JSON.parse] produces, and
    [undefined] for the properties that are not there.  An object is the
    list of its own properties; a read finds the first binding of a name.
    Strings are byte strings (the UTF-8 form of the text). *)
Inductive value : Type :=
| Undefined
| Null
| Bool (b : bool)
| Num (n : float)
| Str (s : string)
| Arr (elems : list value)
| Obj (props : list (string * value)).

Module JS.

Fixpoint lookup (k : string) (props : list (string * value)) : option value :=
  match props with
  | [] => None
  | (k', v) :: rest => if String.eqb k k' then Some v else lookup k rest
  end.

Definition hasOwn (k : string) (props : list (string * value)) : bool :=
  match lookup k props with Some _ => true | None => false end.

(** [v.k] for the property names the SDK reads.  Reading from [undefined]
    or [null] throws; a primitive or an array has none of these names as its
    own.  (Of the names read, only [keys] is inherited by arrays, as a
    method; [convertAPIInstruction] throws a [TypeError] on an array either
    way, since its [programId] is [undefined].) *)
Definition get (v : value) (k : string) : result value :=
  match v with
  | Undefined | Null => Err TypeError
  | Obj props => Ok (match lookup k props with Some x => x | None => Undefined end)
  | _ => Ok Undefined
  end.

(** ToBoolean. *)
Definition truthy (v : value) : bool :=
  match v with
  | Undefined | Null => false
  | Bool b => b
  | Num n => negb (PrimFloat.is_zero n || PrimFloat.is_nan n)
  | Str s => negb (String.eqb s "")
  | Arr _ | Obj _ => true
  end.

(** [a || b]. *)
Definition or (a b : value) : value := if truthy a then a else b.

(** [v.map(f)]: only an array has a callable [map]. *)
Definition map {B} (v : value) (f : value -> result B) : result (list B) :=
  match v with
  | Arr elems => mapM f elems
  | _ => Err TypeError
  end.

(** [needle] is found at the start of [hay]. *)
Fixpoint startsWith (needle hay : string) : bool :=
  match needle with
  | EmptyString => true
  | String a needle' =>
      match hay with
      | EmptyString => false
      | String b hay' => Ascii.eqb a b && startsWith needle' hay'
      end
  end.

(** [hay.includes(needle)] on strings: [needle] is found at some position. *)
Fixpoint includes (needle hay : string) : bool :=
  if startsWith needle hay then true
  else match hay with
       | EmptyString => false
       | String _ hay' => includes needle hay'
       end.

(** [l.join(sep)] once the elements are strings. *)
Fixpoint join (sep : string) (l : list string) : string :=
  match l with
  | [] => ""
  | [s] => s
  | s :: rest => s ++ sep ++ join sep rest
  end.

End JS.

(** ** Positional numerals

    [bs58] and [bn.js] both convert between digit strings in two bases; the
    libraries do it in place on arrays, the result is the numeral of the
    same number. *)

Module Radix.

(** The number written by [ds], most significant digit first. *)
Definition of_digits (b : N) (ds : list N) : N :=
  fold_left (fun acc d => acc * b + d)%N ds 0%N.

Fixpoint to_digits_aux (b : N) (fuel : nat) (n : N) (acc : list N) : list N :=
  match fuel with
  | O => acc
  | S fuel' =>
      if N.eqb n 0 then acc
      else to_digits_aux b fuel' (N.div n b) (N.modulo n b :: acc)
  end.

(** The numeral of [n] in base [b], most significant digit first and
    without leading zeros (empty for 0).  A number has no more digits than
    bits, which bounds the loop. *)
Definition to_digits (b : N) (n : N) : list N :=
  to_digits_aux b (S (N.to_nat (N.log2 n))) n [].

(** A numeral is canonical when it has no leading zero. *)
Definition canonical (ds : list N) : Prop := hd_error ds <> Some 0%N.

(** Splits off the leading [z]s of a list and counts them. *)
Fixpoint leading {A} (is_z : A -> bool) (l : list A) : nat * list A :=
  match l with
  | a :: l' =>
      if is_z a then let '(k, r) := leading is_z l' in (S k, r) else (O, l)
  | [] => (O, [])
  end.

End Radix.

(** The position of a character in an alphabet. *)
Fixpoint index_of (c : ascii) (s : string) : option N :=
  match s with
  | EmptyString => None
  | String c' s' =>
      if Ascii.eqb c c' then Some 0%N
      else option_map N.succ (index_of c s')
  end.

Definition byte_of_N (n : N) : Byte.byte :=
  match Byte.of_N n with Some b => b | None => Byte.x00 end.

Definition is_x00 (b : Byte.byte) : bool := Byte.eqb b Byte.x00.

(** ** bs58 (base-x over the Bitcoin alphabet) *)

Module bs58.

Definition ALPHABET : string :=
  "123456789ABCDEFGHJKLMNPQRSTUVWXYZabcdefghijkmnopqrstuvwxyz".

Definition BASE : N := 58.

(** BASE_MAP: the digit a character stands for, if any. *)
Definition digit (c : ascii) : option N := index_of c ALPHABET.

(** ALPHABET.charAt. *)
Definition symbol (d : N) : ascii :=
  match String.get (N.to_nat d) ALPHABET with
  | Some c => c
  | None => "1"%char
  end.

Fixpoint digits (s : string) : option (list N) :=
  match s with
  | EmptyString => Some []
  | String c s' =>
      match digit c, digits s' with
      | Some d, Some ds => Some (d :: ds)
      | _, _ => None
      end
  end.

(** [decode]: every leading "1" is a zero byte; the rest of the string is
    a base-58 numeral whose value is written in base 256.  A character
    outside the alphabet is refused. *)
Definition decode (source : string) : result (list Byte.byte) :=
  match digits source with
  | None => Err (Error "Non-base58 character")
  | Some ds =>
      let '(zeroes, rest) := Radix.leading (N.eqb 0) ds in
      Ok (repeat Byte.x00 zeroes
            ++ List.map byte_of_N (Radix.to_digits 256 (Radix.of_digits BASE rest)))
  end.

(** [decode] as it is called on a value from the wire: anything but a
    string is refused with a type error. *)
Definition decode_value (v : value) : result (list Byte.byte) :=
  match v with
  | Str s => decode s
  | _ => Err TypeError
  end.

(** [encode], the inverse direction. *)
Definition encode (source : list Byte.byte) : string :=
  let '(zeroes, rest) := Radix.leading is_x00 source in
  string_of_list_ascii
    (repeat "1"%char zeroes
       ++ List.map symbol
            (Radix.to_digits BASE (Radix.of_digits 256 (List.map Byte.to_N rest)))).

End bs58.

(** ** Base64 (RFC 4648, padded)

    The encoding that the comments on [signers] name.  The SDK never calls
    it; it is here to say what a base64-encoded secret looks like. *)

Module base64.

Definition ALPHABET : string :=
  "ABCDEFGHIJKLMNOPQRSTUVWXYZabcdefghijklmnopqrstuvwxyz0123456789+/".

Definition symbol (d : N) : ascii :=
  match String.get (N.to_nat d) ALPHABET with
  | Some c => c
  | None => "="%char
  end.

Fixpoint encode (bs : list Byte.byte) : string :=
  match bs with
  | [] => ""
  | [a] =>
      let n := (Byte.to_N a * 16)%N in
      String (symbol (n / 64)) (String (symbol (n mod 64)) "==")
  | [a; b] =>
      let n := ((Byte.to_N a * 256 + Byte.to_N b) * 4)%N in
      String (symbol (n / 4096))
        (String (symbol (n / 64 mod 64)) (String (symbol (n mod 64)) "="))
  | a :: b :: c :: rest =>
      let n := ((Byte.to_N a * 256 + Byte.to_N b) * 256 + Byte.to_N c)%N in
      String (symbol (n / 262144))
        (String (symbol (n / 4096 mod 64))
           (String (symbol (n / 64 mod 64))
              (String (symbol (n mod 64)) (encode rest))))
  end.

Definition digit (c : ascii) : option N := index_of c ALPHABET.

(** Decoding: six bits per symbol, a byte as soon as eight bits are there;
    padding ends the text and other characters are skipped. *)
Fixpoint decode_from (s : string) (acc nbits : N) : list Byte.byte :=
  match s with
  | EmptyString => []
  | String c s' =>
      match digit c with
      | Some d =>
          let acc' := (acc * 64 + d)%N in
          let nbits' := (nbits + 6)%N in
          if N.leb 8 nbits'
          then byte_of_N (acc' / 2 ^ (nbits' - 8))
                 :: decode_from s' (acc' mod 2 ^ (nbits' - 8))%N (nbits' - 8)%N
          else decode_from s' acc' nbits'
      | None =>
          if Ascii.eqb c "="%char then [] else decode_from s' acc nbits
      end
  end.

Definition decode (s : string) : list Byte.byte := decode_from s 0 0.

End base64.

(** ** PublicKey (web3.js) *)

Module web3.

(** A key is the big number [_bn] it wraps; the constructor lets in no
    number longer than 32 bytes. *)
Record PublicKey : Type := { _bn : Z }.

Definition PUBLIC_KEY_LENGTH : nat := 32.

(** [new BN(bytes)], big-endian. *)
Definition bn_of_bytes (bs : list Byte.byte) : Z :=
  Z.of_N (Radix.of_digits 256 (List.map Byte.to_N bs)).

(** [bn.toArrayLike(Buffer)]: the bytes of the magnitude, one zero byte
    for 0. *)
Definition bn_toArray (bn : Z) : list Byte.byte :=
  match List.map byte_of_N (Radix.to_digits 256 (Z.abs_N bn)) with
  | [] => [Byte.x00]
  | bs => bs
  end.

Definition byteLength (bn : Z) : nat :=
  List.length (Radix.to_digits 256 (Z.abs_N bn)).

(** [toBytes]: [_bn] left-padded with zeros to 32 bytes. *)
Definition toBytes (k : PublicKey) : list Byte.byte :=
  let b := bn_toArray (_bn k) in
  if Nat.eqb (List.length b) PUBLIC_KEY_LENGTH then b
  else repeat Byte.x00 (PUBLIC_KEY_LENGTH - List.length b) ++ b.

Definition toBase58 (k : PublicKey) : string := bs58.encode (toBytes k).

Definition toString (k : PublicKey) : string := toBase58 k.

(** [new PublicKey(value)] for a string: base58 text of exactly 32 bytes. *)
Definition PublicKey_of_string (s : string) : result PublicKey :=
  let* decoded := bs58.decode s in
  if negb (Nat.eqb (List.length decoded) PUBLIC_KEY_LENGTH)
  then Err (Error "Invalid public key input")
  else
    let bn := bn_of_bytes decoded in
    if Nat.ltb PUBLIC_KEY_LENGTH (byteLength bn)
    then Err (Error "Invalid public key input")
    else Ok {| _bn := bn |}.

End web3.

Abbreviation PublicKey := web3.PublicKey.

(** ** Numbers from strings *)

Module StringToNumber.

Definition is_digit (c : ascii) : bool :=
  let n := N_of_ascii c in (N.leb 48 n && N.leb n 57)%bool.

(** Reads a run of decimal digits onto [acc]; returns the number read, how
    many digits there were and the rest of the string. *)
Fixpoint take_digits (s : string) (acc : N) (cnt : nat) : N * nat * string :=
  match s with
  | String c s' =>
      if is_digit c
      then take_digits s' (acc * 10 + (N_of_ascii c - 48))%N (S cnt)
      else (acc, cnt, s)
  | EmptyString => (acc, cnt, s)
  end.

(** An unsigned decimal literal without exponent, [ddd], [ddd.ddd], [ddd.]
    or [.ddd], of at most 20 digits: its digits as one number and the
    count of digits after the point. *)
Definition decimal_literal (s : string) : option (N * nat) :=
  let '(m1, c1, r) := take_digits s 0 0 in
  match r with
  | EmptyString => if Nat.eqb c1 0 then None else
                   if Nat.leb c1 20 then Some (m1, O) else None
  | String "."%char r' =>
      let '(m2, c2, r'') := take_digits r' m1 0 in
      match r'' with
      | EmptyString =>
          if Nat.eqb (c1 + c2) 0 then None else
          if Nat.leb (c1 + c2) 20 then Some (m2, c2) else None
      | _ => None
      end
  | _ => None
  end.

(** The double nearest to [m / 10^k] (ties to even). *)
Definition of_decimal (m : N) (k : nat) : float :=
  match m with
  | N0 => PrimFloat.zero
  | Npos p =>
      SF2Prim (SFdiv prec emax (S754_finite false p 0)
                 (S754_finite false (Nat.iter k (Pos.mul 10) 1%positive) 0))
  end.

End StringToNumber.

(** ** What the SDK takes from outside

    The parts of the JavaScript runtime, of [Buffer] and of web3.js whose
    results the SDK only passes along.  Nothing is assumed about them. *)

Definition bytes : Type := list Byte.byte.

Record Externals : Type := {
  (** [n.toString()] for a number *)
  Number_toString : float -> string;
  (** [Number(s)] for a string that is not a plain decimal literal *)
  StringToNumber_rest : string -> float;
  JSON_stringify : value -> string;
  (** [Buffer.from(x)] and [Buffer.from(x, "base64")] *)
  Buffer_from : value -> result bytes;
  Buffer_from_base64 : value -> result bytes;
  (** [new PublicKey(x)] for [x] a number, a boolean, an array or an object *)
  PublicKey_of_data : value -> result PublicKey;
  Keypair : Type;
  Keypair_fromSecretKey : bytes -> result Keypair;
  VersionedTransaction : Type;
  VersionedTransaction_deserialize : bytes -> result VersionedTransaction;
  (** [tx.sign(signers)]: the transaction after the call *)
  VersionedTransaction_sign :
    VersionedTransaction -> list Keypair -> result VersionedTransaction;
}.

(** ** Promises *)

Record RequestInit : Type := {
  method : string;
  headers : list (string * string);
  body : string;
}.

(** A [Response] as far as the SDK looks at it; [json] is what
    [response.json()] settles to. *)
Record Response : Type := {
  ok : bool;
  statusText : string;
  json : result value;
}.

(** The network: what [fetch(url, init)] settles to. *)
Definition Fetch : Type := string -> option RequestInit -> result Response.

(** What a call does to the outside, in order. *)
Inductive event : Type :=
| EvFetch (url : string) (init : option RequestInit)
| EvReadBody
| EvSimulate (config : value).

Definition Promise (A : Type) : Type := (list event * result A)%type.

Definition settle {A} (r : result A) : Promise A := ([], r).
Definition resolve {A} (a : A) : Promise A := settle (Ok a).
Definition throw {A} (e : exn) : Promise A := settle (Err e).

Definition await {A B} (p : Promise A) (k : A -> Promise B) : Promise B :=
  match p with
  | (t, Ok a) => let '(t', r) := k a in (t ++ t', r)
  | (t, Err e) => (t, Err e)
  end.

Notation "x <- p ;; k" := (await p (fun x => k))
  (at level 61, p at next level, right associativity).

Definition do_fetch (fetch : Fetch) (url : string) (init : option RequestInit)
  : Promise Response :=
  ([EvFetch url init], fetch url init).

Definition response_json (r : Response) : Promise value :=
  ([EvReadBody], json r).

Definition outcome {A} (p : Promise A) : result A := snd p.
Definition trace {A} (p : Promise A) : list event := fst p.

(** ** The data the SDK handles *)

Record RouteOptions : Type := { reduceToTwoHops : bool }.

Record SwapRequestParams : Type := {
  publicKey : PublicKey;
  tokenA : PublicKey;
  tokenB : PublicKey;
  amountIn : float;
  dexId : string;
  options : option RouteOptions;
}.

Record RoutePlanStep : Type := {
  rp_tokenA : PublicKey;
  rp_tokenB : PublicKey;
  rp_dexId : value;
}.

Record AccountMeta : Type := {
  pubkey : PublicKey;
  isSigner : value;
  isWritable : value;
}.

Record TransactionInstruction : Type := {
  keys : list AccountMeta;
  programId : PublicKey;
  data : bytes;
}.

Record InstructionGroup : Type := {
  instructions : list TransactionInstruction;
  cleanupInstructions : list TransactionInstruction;
  group_signers : value;
}.

Record SwapIxResult : Type := {
  instructionGroups : list InstructionGroup;
  ix_amountOut : float;
  ix_amountOutUi : float;
  ix_routePlan : list RoutePlanStep;
  ix_lookupAccounts : list PublicKey;
  ix_signers : value;
}.

Record Token : Type := {
  name : value;
  symbol : value;
  address : PublicKey;
  chainId : value;
  decimals : value;
  logoURL : value;
}.

Record SwapSDK : Type := { baseUrl : string }.

Definition BASE_URL : string := "http://170.75.162.89:3333/".

(** The constructor: [baseUrl || BASE_URL]. *)
Definition new_SwapSDK (url : option string) : SwapSDK :=
  match url with
  | Some u => {| baseUrl := if String.eqb u "" then BASE_URL else u |}
  | None => {| baseUrl := BASE_URL |}
  end.

Section SDK.

Context (L : Externals).

Record SwapTxResult : Type := {
  transaction : VersionedTransaction L;
  amountOut : float;
  amountOutUi : float;
  routePlan : list RoutePlanStep;
  lookupAccounts : list PublicKey;
  signers : list (Keypair L);
}.

(** [connection.simulateTransaction(tx, config)]. *)
Record Connection : Type := {
  conn_simulateTransaction : VersionedTransaction L -> value -> result value;
}.

(** *** Conversions of the runtime *)

(** [v.toString()].  An array joins its elements with commas, [null] and
    [undefined] elements giving the empty string; an object answers
    ["[object Object]"] unless a property of its own hides the method, and
    then the call is a type error. *)
Fixpoint toString (v : value) : result string :=
  match v with
  | Undefined | Null => Err TypeError
  | Bool b => Ok (if b then "true" else "false")
  | Num n => Ok (Number_toString L n)
  | Str s => Ok s
  | Arr elems =>
      let* parts :=
        (fix each (l : list value) : result (list string) :=
           match l with
           | [] => Ok []
           | e :: l' =>
               let* s := match e with
                         | Undefined | Null => Ok ""
                         | _ => toString e
                         end in
               let* ss := each l' in
               Ok (s :: ss)
           end) elems in
      Ok (JS.join "," parts)
  | Obj props =>
      if JS.hasOwn "toString" props then Err TypeError
      else Ok "[object Object]"
  end.

Definition StringToNumber (s : string) : float :=
  match StringToNumber.decimal_literal s with
  | Some (m, k) => StringToNumber.of_decimal m k
  | None => StringToNumber_rest L s
  end.

(** [Number(v)]. *)
Definition Number (v : value) : result float :=
  match v with
  | Undefined => Ok PrimFloat.nan
  | Null => Ok PrimFloat.zero
  | Bool b => Ok (if b then PrimFloat.one else PrimFloat.zero)
  | Num n => Ok n
  | Str s => Ok (StringToNumber s)
  | Arr _ | Obj _ => let* s := toString v in Ok (StringToNumber s)
  end.

(** [new PublicKey(v)]. *)
Definition new_PublicKey (v : value) : result PublicKey :=
  match v with
  | Str s => web3.PublicKey_of_string s
  | Undefined | Null => Err TypeError
  | _ => PublicKey_of_data L v
  end.

(** *** errors.ts *)

(** Throws the SDK's own error when the text of [e] names the lock limit;
    returns normally otherwise. *)
Definition handleSimulationError (e : value) : result unit :=
  let* s := toString e in
  if JS.includes "TooManyAccountLocks" s
  then Err (TooManyAccountsLockError
              "Too many account locks: consider using the option reduceToTwoHops in the options when getting the routes")
  else Ok tt.

(** *** SwapSDK.ts *)

(** POSTs the request and hands back [response.json()]. *)
Definition callSwapEndpoint (fetch : Fetch) (this : SwapSDK)
    (params : SwapRequestParams) : Promise value :=
  let body :=
    Obj [ ("publicKey", Str (web3.toBase58 (publicKey params)));
          ("tokenA", Str (web3.toBase58 (tokenA params)));
          ("tokenB", Str (web3.toBase58 (tokenB params)));
          ("amountIn", Str (Number_toString L (amountIn params)));
          ("dexId", Str (dexId params));
          ("options", match options params with
                      | Some o => Obj [("reduceToTwoHops", Bool (reduceToTwoHops o))]
                      | None => Undefined
                      end) ] in
  response <- do_fetch fetch (baseUrl this ++ "/bestSwapRoute")
                (Some {| method := "POST";
                         headers := [("Content-Type", "application/json")];
                         body := JSON_stringify L body |}) ;;
  if negb (ok response)
  then throw (Error ("API Error: " ++ statusText response))
  else response_json response.

(** [(data.lookUpAccounts || []).map(addr => new PublicKey(addr))], as
    written in both [swapTx] and [swapIx]. *)
Definition convertLookupAccounts (data : value) : result (list PublicKey) :=
  let* accounts := JS.get data "lookUpAccounts" in
  JS.map (JS.or accounts (Arr [])) new_PublicKey.

(** [(data.routePlan || []).map(rp => ({tokenA, tokenB, dexId}))], as
    written in both [swapTx] and [swapIx]. *)
Definition convertRoutePlan (data : value) : result (list RoutePlanStep) :=
  let* plan := JS.get data "routePlan" in
  JS.map (JS.or plan (Arr []))
    (fun rp =>
       let* a := JS.get rp "tokenA" in
       let* tokenA := new_PublicKey a in
       let* b := JS.get rp "tokenB" in
       let* tokenB := new_PublicKey b in
       let* dexId := JS.get rp "dexId" in
       Ok {| rp_tokenA := tokenA; rp_tokenB := tokenB; rp_dexId := dexId |}).

(** The callback applied to each entry of [signers]:
    [Keypair.fromSecretKey(base58.decode(s))]. *)
Definition keypairOfSigner (s : value) : result (Keypair L) :=
  let* secretKey := bs58.decode_value s in
  Keypair_fromSecretKey L secretKey.

(** [swapTx] after the [await]: the reshaping of the parsed answer. *)
Definition swapTx_body (data : value) : result SwapTxResult :=
  let* tx64 := JS.get data "transaction" in
  let* txBuffer := Buffer_from_base64 L tx64 in
  let* transaction := VersionedTransaction_deserialize L txBuffer in
  let* lookupAccounts := convertLookupAccounts data in
  let* routePlan := convertRoutePlan data in
  let* secrets := JS.get data "signers" in
  let* signers := JS.map secrets keypairOfSigner in
  let* signed := VersionedTransaction_sign L transaction signers in
  let* amountOut := (let* a := JS.get data "amountOut" in Number a) in
  let* amountOutUi := (let* a := JS.get data "amountOutUi" in Number a) in
  Ok {| transaction := signed;
        amountOut := amountOut;
        amountOutUi := amountOutUi;
        routePlan := routePlan;
        lookupAccounts := lookupAccounts;
        signers := signers |}.

Definition swapTx (fetch : Fetch) (this : SwapSDK) (params : SwapRequestParams)
  : Promise SwapTxResult :=
  data <- callSwapEndpoint fetch this params ;;
  settle (swapTx_body data).

(** The fields are evaluated in the order of the object literal: [keys],
    [programId], [data]. *)
Definition convertAPIInstruction (apiInst : value) : result TransactionInstruction :=
  let* ks := JS.get apiInst "keys" in
  let* keys :=
    JS.map (JS.or ks (Arr []))
      (fun key =>
         let* p := JS.get key "pubkey" in
         let* pubkey := new_PublicKey p in
         let* isSigner := JS.get key "isSigner" in
         let* isWritable := JS.get key "isWritable" in
         Ok {| pubkey := pubkey; isSigner := isSigner; isWritable := isWritable |}) in
  let* pid := JS.get apiInst "programId" in
  let* programId := new_PublicKey pid in
  let* d := JS.get apiInst "data" in
  let* data := Buffer_from L d in
  Ok {| keys := keys; programId := programId; data := data |}.

(** The callback of [swapIx] on each element of [inXs]. *)
Definition convertGroup (group : value) : result InstructionGroup :=
  let* insts := JS.get group "instructions" in
  let* instructions :=
    JS.map (JS.or insts (Arr [])) convertAPIInstruction in
  let* cs := JS.get group "cleanupInstructions" in
  let* cleanupInstructions :=
    JS.map (JS.or cs (Arr [])) convertAPIInstruction in
  let* ss := JS.get group "signers" in
  Ok {| instructions := instructions;
        cleanupInstructions := cleanupInstructions;
        group_signers := JS.or ss (Arr []) |}.

(** [swapIx] after the [await]. *)
Definition swapIx_body (data : value) : result SwapIxResult :=
  let* lookupAccounts := convertLookupAccounts data in
  let* routePlan := convertRoutePlan data in
  let* inXs := JS.get data "inXs" in
  let* instructionGroups :=
    JS.map (JS.or inXs (Arr [])) convertGroup in
  let* amountOut := (let* a := JS.get data "amountOut" in Number a) in
  let* amountOutUi := (let* a := JS.get data "amountOutUi" in Number a) in
  let* signers := JS.get data "signers" in
  Ok {| instructionGroups := instructionGroups;
        ix_amountOut := amountOut;
        ix_amountOutUi := amountOutUi;
        ix_routePlan := routePlan;
        ix_lookupAccounts := lookupAccounts;
        ix_signers := signers |}.

Definition swapIx (fetch : Fetch) (this : SwapSDK) (params : SwapRequestParams)
  : Promise SwapIxResult :=
  data <- callSwapEndpoint fetch this params ;;
  settle (swapIx_body data).

(** The callback of [tokenList] on each descriptor. *)
Definition convertToken (token : value) : result Token :=
  let* name := JS.get token "name" in
  let* symbol := JS.get token "symbol" in
  let* a := JS.get token "address" in
  let* address := new_PublicKey a in
  let* chainId := JS.get token "chainId" in
  let* decimals := JS.get token "decimals" in
  let* logoURL := JS.get token "logoURL" in
  Ok {| name := name; symbol := symbol; address := address;
        chainId := chainId; decimals := decimals; logoURL := logoURL |}.

Definition tokenList (fetch : Fetch) (this : SwapSDK) : Promise (list Token) :=
  response <- do_fetch fetch (baseUrl this ++ "/tokenList") None ;;
  if negb (ok response)
  then throw (Error ("API Error: " ++ statusText response))
  else
    data <- response_json response ;;
    settle (JS.map data convertToken).

Definition tokenPrice (fetch : Fetch) (this : SwapSDK) (tokenAddress : PublicKey)
  : Promise float :=
  response <- do_fetch fetch
                (baseUrl this ++ "/tokenPrice/" ++ web3.toBase58 tokenAddress) None ;;
  if negb (ok response)
  then throw (Error ("API Error: " ++ statusText response))
  else
    data <- response_json response ;;
    settle (let* p := JS.get data "price" in Number p).

(** [const { value } = await connection.simulateTransaction(...)], then
    the translation of [value.err]. *)
Definition simulateTransaction (connection : Connection)
    (transaction : VersionedTransaction L) : Promise value :=
  let config := Obj [("commitment", Str "confirmed")] in
  response <- ([EvSimulate config],
               conn_simulateTransaction connection transaction config) ;;
  settle
    (let* value := JS.get response "value" in
     let* err := JS.get value "err" in
     let* _ := (if JS.truthy err then handleSimulationError err else Ok tt) in
     Ok value).

End SDK.

Arguments transaction {L} _.
Arguments amountOut {L} _.
Arguments amountOutUi {L} _.
Arguments routePlan {L} _.
Arguments lookupAccounts {L} _.
Arguments signers {L} _.

(** ** Vocabulary for the statements *)

(** [needle] occurs in [hay]. *)
Definition substring (needle hay : string) : Prop :=
  exists before after, hay = (before ++ needle ++ after)%string.

(** A service that answers every request with [resp]. *)
Definition mock (resp : Response) : Fetch := fun _ _ => Ok resp.

(** A 200 answer whose body parses to [data]. *)
Definition success (data : value) : Response :=
  {| ok := true; statusText := "OK"; json := Ok data |}.

(** The call made one request, did not read the body of the answer, and
    threw the error that carries the status text [st]. *)
Definition fails_with_status {A} (st : string) (p : Promise A) : Prop :=
  outcome p = Err (Error ("API Error: " ++ st))
  /\ (exists m, outcome p = Err (Error m) /\ substring st m)
  /\ exists url init, trace p = [EvFetch url init].

(** Reading the wire data without throwing: a property that cannot be
    read counts as absent, and what is not an array has no elements. *)
Definition field (v : value) (k : string) : value :=
  match JS.get v k with Ok x => x | Err _ => Undefined end.

Definition elems (v : value) : list value :=
  match v with Arr l => l | _ => [] end.

(** The address-like fields of a quote, in the order the SDK meets them. *)
Definition lookup_addresses (data : value) : list value :=
  elems (field data "lookUpAccounts").

Definition route_addresses (data : value) : list value :=
  flat_map (fun rp => [field rp "tokenA"; field rp "tokenB"])
    (elems (field data "routePlan")).

Definition instruction_addresses (inst : value) : list value :=
  List.map (fun key => field key "pubkey") (elems (field inst "keys"))
    ++ [field inst "programId"].

Definition group_addresses (group : value) : list value :=
  flat_map instruction_addresses (elems (field group "instructions"))
    ++ flat_map instruction_addresses (elems (field group "cleanupInstructions")).

Definition tx_addresses (data : value) : list value :=
  lookup_addresses data ++ route_addresses data.

Definition ix_addresses (data : value) : list value :=
  lookup_addresses data ++ route_addresses data
    ++ flat_map group_addresses (elems (field data "inXs")).

Definition token_addresses (data : value) : list value :=
  List.map (fun token => field token "address") (elems data).

(** The keys of a result, in the same order. *)
Definition route_keys (plan : list RoutePlanStep) : list PublicKey :=
  flat_map (fun step => [rp_tokenA step; rp_tokenB step]) plan.

Definition instruction_keys (inst : TransactionInstruction) : list PublicKey :=
  List.map pubkey (keys inst) ++ [programId inst].

Definition group_keys (g : InstructionGroup) : list PublicKey :=
  flat_map instruction_keys (instructions g)
    ++ flat_map instruction_keys (cleanupInstructions g).

Definition tx_keys {L} (r : SwapTxResult L) : list PublicKey :=
  lookupAccounts r ++ route_keys (routePlan r).

Definition ix_keys (r : SwapIxResult) : list PublicKey :=
  ix_lookupAccounts r ++ route_keys (ix_routePlan r)
    ++ flat_map group_keys (instructionGroups r).

(** Field for field: what it means for a typed value to be the raw one
    with its addresses parsed and its buffer built, nothing else changed. *)
Definition parses (L : Externals) (a : value) (k : PublicKey) : Prop :=
  new_PublicKey L a = Ok k.

Definition key_matches (L : Externals) (raw : value) (m : AccountMeta) : Prop :=
  parses L (field raw "pubkey") (pubkey m)
  /\ isSigner m = field raw "isSigner"
  /\ isWritable m = field raw "isWritable".

Definition instruction_matches (L : Externals) (raw : value)
    (i : TransactionInstruction) : Prop :=
  Forall2 (key_matches L) (elems (field raw "keys")) (keys i)
  /\ parses L (field raw "programId") (programId i)
  /\ Buffer_from L (field raw "data") = Ok (data i).

Definition group_matches (L : Externals) (raw : value) (g : InstructionGroup)
  : Prop :=
  Forall2 (instruction_matches L) (elems (field raw "instructions")) (instructions g)
  /\ Forall2 (instruction_matches L) (elems (field raw "cleanupInstructions"))
       (cleanupInstructions g)
  /\ group_signers g = JS.or (field raw "signers") (Arr []).

Definition step_matches (L : Externals) (raw : value) (s : RoutePlanStep) : Prop :=
  parses L (field raw "tokenA") (rp_tokenA s)
  /\ parses L (field raw "tokenB") (rp_tokenB s)
  /\ rp_dexId s = field raw "dexId".

Definition token_matches (L : Externals) (raw : value) (t : Token) : Prop :=
  parses L (field raw "address") (address t)
  /\ name t = field raw "name"
  /\ symbol t = field raw "symbol"
  /\ chainId t = field raw "chainId"
  /\ decimals t = field raw "decimals"
  /\ logoURL t = field raw "logoURL".

(** Some address in [l] is refused by the key constructor. *)
Definition rejected (L : Externals) (l : list value) : Prop :=
  exists a e, In a l /\ new_PublicKey L a = Err e.

(** ** A stand-in for the outside

    Used to run the SDK on concrete responses.  The statements below hold
    for every [Externals]; this one only has to exist.  A transaction
    remembers the secret keys that signed it, in order. *)

Module Stub.

Record keypair : Type := { secretKey : bytes }.

Record tx : Type := { message : bytes; signatures : list bytes }.

Definition bytes_of_string (s : string) : bytes :=
  List.map (fun c => byte_of_N (N_of_ascii c)) (list_ascii_of_string s).

Definition lib : Externals := {|
  Number_toString := fun _ => "0";
  StringToNumber_rest := fun _ => PrimFloat.nan;
  JSON_stringify := fun _ => "{}";
  Buffer_from := fun v =>
    match v with Str s => Ok (bytes_of_string s) | _ => Err TypeError end;
  Buffer_from_base64 := fun v =>
    match v with Str s => Ok (base64.decode s) | _ => Err TypeError end;
  PublicKey_of_data := fun _ => Err (Error "Invalid public key input");
  Keypair := keypair;
  Keypair_fromSecretKey := fun b =>
    if Nat.eqb (List.length b) 64 then Ok {| secretKey := b |}
    else Err (Error "bad secret key size");
  VersionedTransaction := tx;
  VersionedTransaction_deserialize := fun b =>
    Ok {| message := b; signatures := [] |};
  VersionedTransaction_sign := fun t ks =>
    Ok {| message := message t;
          signatures := signatures t ++ List.map secretKey ks |};
|}.

Definition sdk : SwapSDK := new_SwapSDK (Some "http://localhost:3333").

Definition key (s : string) : PublicKey :=
  match web3.PublicKey_of_string s with
  | Ok k => k
  | Err _ => {| web3._bn := 0 |}
  end.

Definition tokenA_key : PublicKey :=
  key "GU7NS9xCwgNPiAdJ69iusFrRfawjDDPjeMBovhV1d4kn".

(** The request of the usage example in [SwapSDK.ts]. *)
Definition params : SwapRequestParams := {|
  publicKey := key "8PE7zNHVmn1zmFqNxPHpgjriDd8MNfTHWadPKenYDQX2";
  tokenA := key "GU7NS9xCwgNPiAdJ69iusFrRfawjDDPjeMBovhV1d4kn";
  tokenB := key "CEBP3CqAbW4zdZA57H2wfaSG1QNdzQ72GiQEbQXyW9Tm";
  amountIn := 10;
  dexId := "INVARIANT";
  options := None;
|}.

(** Two 64-byte secrets in base58: all zeros, and zeros ending in 1. *)
Definition secret0 : string :=
  "1111111111111111111111111111111111111111111111111111111111111111".
Definition secret1 : string :=
  "1111111111111111111111111111111111111111111111111111111111111112".

Definition hop : value :=
  Obj [ ("tokenA", Str "GU7NS9xCwgNPiAdJ69iusFrRfawjDDPjeMBovhV1d4kn");
        ("tokenB", Str "CEBP3CqAbW4zdZA57H2wfaSG1QNdzQ72GiQEbQXyW9Tm");
        ("dexId", Str "INVARIANT") ].

(** A quote in the transaction form, with two signers. *)
Definition quote : value :=
  Obj [ ("transaction", Str "AQID");
        ("amountOut", Str "500000");
        ("amountOutUi", Str "0.5");
        ("routePlan", Arr [hop]);
        ("lookUpAccounts", Arr [Str "So11111111111111111111111111111111111111112"]);
        ("signers", Arr [Str secret0; Str secret1]) ].

(** The same quote with a lookup account that is not base58. *)
Definition badQuote : value :=
  Obj [ ("transaction", Str "AQID");
        ("amountOut", Str "500000");
        ("amountOutUi", Str "0.5");
        ("routePlan", Arr [hop]);
        ("lookUpAccounts", Arr [Str "So11111111111111111111111111111111111111112";
                                Str "0OIl"]);
        ("signers", Arr [Str secret0; Str secret1]) ].

(** The quote of the documented scenario: one hop, no lookup account, no
    signer. *)
Definition scenario : value :=
  Obj [ ("transaction", Str "AQID");
        ("amountOut", Str "500000");
        ("amountOutUi", Str "0.5");
        ("routePlan", Arr [hop]);
        ("lookUpAccounts", Arr []);
        ("signers", Arr []) ].

(** An answer with an error status, and one to a price request. *)
Definition notFound : Response :=
  {| ok := false; statusText := "Not Found"; json := Err TypeError |}.

Definition priceBody : value := Obj [("price", Str "1.2345")].

(** A quote in which some array-valued fields are missing. *)
Definition sparseProps : list (string * value) :=
  [ ("transaction", Str "AQID");
    ("amountOut", Str "500000");
    ("amountOutUi", Str "0.5");
    ("routePlan", Arr [hop]);
    ("signers", Arr [Str secret0]) ].

(** A quote without [signers]. *)
Definition unsignedQuote : value :=
  Obj [ ("transaction", Str "AQID");
        ("amountOut", Str "500000");
        ("amountOutUi", Str "0.5") ].

(** A quote whose signer is the base64 text of 64 zero bytes. *)
Definition base64Quote : value :=
  Obj [ ("transaction", Str "AQID");
        ("amountOut", Str "500000");
        ("amountOutUi", Str "0.5");
        ("routePlan", Arr []);
        ("lookUpAccounts", Arr []);
        ("signers", Arr [Str (base64.encode (repeat Byte.x00 64))]) ].

Definition emptyTx : tx := {| message := []; signatures := [] |}.

(** The outcome of a simulation whose error field is [err], the answer
    of the node that wraps it, and a node that gives this answer. *)
Definition simulated (err : value) : value :=
  Obj [("err", err); ("logs", Arr [])].

Definition rpcAnswer (err : value) : value :=
  Obj [("context", Obj [("slot", Num 1)]); ("value", simulated err)].

Definition node (err : value) : Connection lib :=
  {| conn_simulateTransaction := fun _ _ => Ok (rpcAnswer err) |}.

Definition instruction : value :=
  Obj [ ("keys", Arr [ Obj [ ("pubkey", Str "8PE7zNHVmn1zmFqNxPHpgjriDd8MNfTHWadPKenYDQX2");
                              ("isSigner", Bool true);
                              ("isWritable", Bool false) ] ]);
        ("programId", Str "11111111111111111111111111111111");
        ("data", Str "swap") ].

(** A quote in the instruction form, with one group. *)
Definition quoteIx : value :=
  Obj [ ("inXs", Arr [ Obj [ ("instructions", Arr [instruction; instruction]);
                              ("cleanupInstructions", Arr [instruction]);
                              ("signers", Arr [Str secret0]) ] ]);
        ("amountOut", Str "500000");
        ("amountOutUi", Str "0.5");
        ("routePlan", Arr [hop]);
        ("lookUpAccounts", Arr []);
        ("signers", Arr []) ].

Definition tokens : value :=
  Arr [ Obj [ ("name", Str "Wrapped SOL");
              ("symbol", Str "SOL");
              ("address", Str "So11111111111111111111111111111111111111112");
              ("chainId", Num 101);
              ("decimals", Num 9);
              ("logoURL", Str "https://example.org/sol.png") ] ].

End Stub.


(** ** Vocabulary for the further properties *)

(** A network on which every request fails with [e]. *)
Definition failing (e : exn) : Fetch := fun _ _ => Err e.

(** The keys the constructor lets in: numbers of at most 32 bytes. *)
Definition valid_key (k : PublicKey) : Prop :=
  (0 <= web3._bn k < 2 ^ 256)%Z.

(** The init of the one POST request. *)
Definition post_json (text : string) : option RequestInit :=
  Some {| method := "POST";
          headers := [("Content-Type", "application/json")];
          body := text |}.

(** The call made the request [(url, init)] and nothing else, read the
    body only of an answer with a success status, and passed on a failure
    of the transport or of the parsing of the body as it came. *)
Definition exchanges_once {A} (fetch : Fetch) (url : string)
    (init : option RequestInit) (p : Promise A) : Prop :=
  match fetch url init with
  | Err e => p = ([EvFetch url init], Err e)
  | Ok resp =>
      if ok resp
      then trace p = [EvFetch url init; EvReadBody]
           /\ forall e, json resp = Err e -> outcome p = Err e
      else p = ([EvFetch url init], Err (Error ("API Error: " ++ statusText resp)))
  end.

(** The message of the SDK's own error. *)
Definition lock_message : string :=
  "Too many account locks: consider using the option reduceToTwoHops in the options when getting the routes".

Module Cases.

(** An error payload of the node in object form, which names the lock
    limit inside. *)
Definition objectError : value :=
  Obj [("InstructionError", Arr [Num 0; Str "TooManyAccountLocks"])].

(** A node that cannot be reached. *)
Definition deadNode : Connection Stub.lib :=
  {| conn_simulateTransaction := fun _ _ => Err (Error "failed to fetch") |}.

(** A quote whose second and third lookup accounts are refused, for
    different reasons. *)
Definition twiceBadQuote : value :=
  Obj [ ("transaction", Str "AQID");
        ("lookUpAccounts", Arr [Str "So11111111111111111111111111111111111111112";
                                Str "abc";
                                Str "0OIl"]);
        ("signers", Arr []) ].

(** A quote with a signer that is a number. *)
Definition numberSignerQuote : value :=
  Obj [ ("transaction", Str "AQID");
        ("signers", Arr [Str Stub.secret0; Num 7]) ].

(** A quote that carries nothing but a transaction and no signer. *)
Definition bareQuote : value :=
  Obj [ ("transaction", Str "AQID"); ("signers", Arr []) ].

End Cases.

(** * Properties *)

(** ** Results and traversals *)

Lemma result_cases {A} (r : result A) : (exists a, r = Ok a) \/ (exists e, r = Err e).
Proof. destruct r; eauto. Qed.

Lemma rbind_Ok {A B} (r : result A) (k : A -> result B) (b : B) :
  rbind r k = Ok b <-> exists a, r = Ok a /\ k a = Ok b.
Proof.
  destruct r as [a|e]; simpl; split.
  - eauto.
  - intros (a' & Ha & Hk). now inversion Ha; subst.
  - discriminate.
  - intros (a' & Ha & _). discriminate.
Qed.

(** Unfolds a chain of [let*] that is known to succeed. *)
Ltac bind_inv H :=
  repeat match type of H with
         | rbind _ _ = Ok _ =>
             let x := fresh "x" in
             let Hx := fresh "Hx" in
             apply rbind_Ok in H; destruct H as (x & Hx & H)
         end.

Lemma mapM_Forall2 {A B} (f : A -> result B) (l : list A) (bs : list B) :
  mapM f l = Ok bs <-> Forall2 (fun a b => f a = Ok b) l bs.
Proof.
  revert bs. induction l as [|a l IH]; intros bs; simpl.
  - split.
    + intros H. inversion H. constructor.
    + intros H. inversion H. reflexivity.
  - split.
    + intros H. bind_inv H. inversion H; subst.
      constructor; [assumption | now apply IH].
    + intros H. inversion H as [|? b ? bs' Hab Hrest]; subst.
      rewrite Hab. simpl. apply IH in Hrest. rewrite Hrest. reflexivity.
Qed.

Lemma mapM_Err_In {A B} (f : A -> result B) l a e :
  In a l -> f a = Err e -> exists e', mapM f l = Err e'.
Proof.
  intros Hin Hf. induction l as [|x l IH]; [contradiction|].
  simpl. destruct Hin as [->|Hin].
  - rewrite Hf. simpl. eauto.
  - destruct (f x); simpl; [|eauto].
    destruct (IH Hin) as (e' & ->). simpl. eauto.
Qed.

Lemma JS_map_Forall2 {B} (v : value) (f : value -> result B) bs :
  JS.map v f = Ok bs -> exists l, v = Arr l /\ Forall2 (fun a b => f a = Ok b) l bs.
Proof.
  destruct v; simpl; try discriminate.
  intros H. eexists. split; [reflexivity|]. now apply mapM_Forall2.
Qed.

(** When the defaulted read is an array, it is the array of [elems]. *)
Lemma or_empty_elems v l : JS.or v (Arr []) = Arr l -> elems v = l.
Proof.
  unfold JS.or. destruct (JS.truthy v) eqn:Ht.
  - intros ->. reflexivity.
  - intros H. inversion H; subst. destruct v; simpl in *; try reflexivity; discriminate.
Qed.

Lemma get_field v k x : JS.get v k = Ok x -> field v k = x.
Proof. unfold field. now intros ->. Qed.

(** ** Substrings *)

Lemma startsWith_spec (p s : string) :
  JS.startsWith p s = true <-> exists rest, s = (p ++ rest)%string.
Proof.
  revert s. induction p as [|c p IH]; intros s; simpl.
  - split; [intros _; now exists s | intros _; reflexivity].
  - destruct s as [|c' s].
    + split; [discriminate | intros (r & Hr); discriminate].
    + rewrite andb_true_iff, Ascii.eqb_eq, IH. split.
      * intros (-> & r & ->). now exists r.
      * intros (r & Hr). inversion Hr; subst. eauto.
Qed.

Lemma includes_spec (needle hay : string) :
  JS.includes needle hay = true <-> substring needle hay.
Proof.
  unfold substring. induction hay as [|c hay IH]; simpl.
  - destruct (JS.startsWith needle "") eqn:Hp.
    + split; [|reflexivity]. intros _. apply startsWith_spec in Hp.
      destruct Hp as (r & Hr). now exists "", r.
    + split; [discriminate|]. intros (a & b & Hab).
      destruct a; simpl in Hab; [|discriminate].
      assert (JS.startsWith needle "" = true) by (apply startsWith_spec; eauto).
      congruence.
  - destruct (JS.startsWith needle (String c hay)) eqn:Hp.
    + split; [|reflexivity]. intros _. apply startsWith_spec in Hp.
      destruct Hp as (r & Hr). now exists "", r.
    + rewrite IH. split.
      * intros (a & b & ->). now exists (String c a), b.
      * intros (a & b & Hab). destruct a as [|c' a]; simpl in Hab.
        -- assert (JS.startsWith needle (String c hay) = true)
             by (apply startsWith_spec; eauto). congruence.
        -- inversion Hab; subst. eauto.
Qed.

(** ** One exchange per call *)

Lemma append_empty_r (s : string) : (s ++ "")%string = s.
Proof. induction s; simpl; congruence. Qed.

Lemma substring_suffix (a b : string) : substring b (a ++ b).
Proof. exists a, "". now rewrite append_empty_r. Qed.

Section Exchange.

Context (L : Externals) (resp : Response) (this : SwapSDK).

Lemma callSwapEndpoint_refused params :
  ok resp = false ->
  exists url init,
    callSwapEndpoint L (mock resp) this params
    = ([EvFetch url init], Err (Error ("API Error: " ++ statusText resp))).
Proof.
  intros Hok. unfold callSwapEndpoint, do_fetch, mock, await.
  rewrite Hok. simpl. eauto.
Qed.

Lemma callSwapEndpoint_answered params :
  ok resp = true ->
  exists url init,
    callSwapEndpoint L (mock resp) this params
    = ([EvFetch url init; EvReadBody], json resp).
Proof.
  intros Hok. unfold callSwapEndpoint, do_fetch, mock, await.
  rewrite Hok. simpl. unfold response_json. eauto.
Qed.

Lemma swapTx_answered params data :
  ok resp = true -> json resp = Ok data ->
  outcome (swapTx L (mock resp) this params) = swapTx_body L data.
Proof.
  intros Hok Hjson. unfold swapTx.
  destruct (callSwapEndpoint_answered params Hok) as (url & init & ->).
  rewrite Hjson. unfold await, settle, outcome. reflexivity.
Qed.

Lemma swapIx_answered params data :
  ok resp = true -> json resp = Ok data ->
  outcome (swapIx L (mock resp) this params) = swapIx_body L data.
Proof.
  intros Hok Hjson. unfold swapIx.
  destruct (callSwapEndpoint_answered params Hok) as (url & init & ->).
  rewrite Hjson. unfold await, settle, outcome. reflexivity.
Qed.

Lemma tokenList_answered data :
  ok resp = true -> json resp = Ok data ->
  outcome (tokenList L (mock resp) this) = JS.map data (convertToken L).
Proof.
  intros Hok Hjson. unfold tokenList, do_fetch, mock, await, response_json.
  rewrite Hok, Hjson. reflexivity.
Qed.

Lemma tokenPrice_answered tokenAddress data :
  ok resp = true -> json resp = Ok data ->
  outcome (tokenPrice L (mock resp) this tokenAddress)
  = (let* p := JS.get data "price" in Number L p).
Proof.
  intros Hok Hjson. unfold tokenPrice, do_fetch, mock, await, response_json.
  rewrite Hok, Hjson. reflexivity.
Qed.

End Exchange.

(** C3. Each of the four HTTP-backed methods, on an answer whose status is
    not a success, makes its one request and throws at once:
    the error is [Error("API Error: " + statusText)], so its message
    contains the status text, and the body of the answer is never read
    (whatever [json] would have given). *)
Theorem non_success_status_fails_with_its_text :
  forall (L : Externals) (resp : Response) (this : SwapSDK)
         (params : SwapRequestParams) (tokenAddress : PublicKey),
    ok resp = false ->
    fails_with_status (statusText resp) (swapTx L (mock resp) this params)
    /\ fails_with_status (statusText resp) (swapIx L (mock resp) this params)
    /\ fails_with_status (statusText resp) (tokenList L (mock resp) this)
    /\ fails_with_status (statusText resp)
         (tokenPrice L (mock resp) this tokenAddress).
Proof.
  intros L resp this params tokenAddress Hok.
  assert (Hmsg : forall A (p : Promise A) url init,
             p = ([EvFetch url init], Err (Error ("API Error: " ++ statusText resp))) ->
             fails_with_status (statusText resp) p).
  { intros A p url init ->. unfold fails_with_status, outcome, trace. simpl.
    repeat split; eauto. eexists. split; [reflexivity|]. apply (substring_suffix "API Error: "). }
  destruct (callSwapEndpoint_refused L resp this params Hok) as (url & init & Hc).
  split; [|split; [|split]].
  - apply (Hmsg _ _ url init). unfold swapTx. rewrite Hc. reflexivity.
  - apply (Hmsg _ _ url init). unfold swapIx. rewrite Hc. reflexivity.
  - eapply Hmsg. unfold tokenList, do_fetch, mock, await. rewrite Hok. simpl. reflexivity.
  - eapply Hmsg. unfold tokenPrice, do_fetch, mock, await. rewrite Hok. simpl. reflexivity.
Qed.

Lemma non_success_status_fails_with_its_text_witness :
  fails_with_status "Not Found"
    (swapTx Stub.lib (mock Stub.notFound) Stub.sdk Stub.params)
  /\ fails_with_status "Not Found"
       (swapIx Stub.lib (mock Stub.notFound) Stub.sdk Stub.params)
  /\ fails_with_status "Not Found"
       (tokenList Stub.lib (mock Stub.notFound) Stub.sdk)
  /\ fails_with_status "Not Found"
       (tokenPrice Stub.lib (mock Stub.notFound) Stub.sdk Stub.tokenA_key).
Proof.
  exact (non_success_status_fails_with_its_text Stub.lib Stub.notFound
           Stub.sdk Stub.params Stub.tokenA_key eq_refl).
Defined.

(** The documented scenario: amounts become numbers, one hop, no lookup
    account, nothing signed; one request was made and its body read. *)
Example scenario_result :
  match swapTx Stub.lib (mock (success Stub.scenario)) Stub.sdk Stub.params with
  | ([EvFetch _ _; EvReadBody], Ok r) =>
      amountOut r = 500000%float
      /\ amountOutUi r = 0.5%float
      /\ List.length (routePlan r) = 1
      /\ lookupAccounts r = []
      /\ signers r = []
      /\ Stub.signatures (transaction r) = []
  | _ => False
  end.
Proof. vm_compute. repeat split. Qed.

(** ** Absent fields *)

(** The steps of a reshaping that returned, one hypothesis per step. *)
Ltac steps H :=
  bind_inv H; try (inversion H; subst; clear H);
  repeat match goal with
         | H' : rbind _ _ = Ok _ |- _ =>
             let x := fresh "x" in
             let Hx := fresh "Hx" in
             apply rbind_Ok in H'; destruct H' as (x & Hx & H')
         end.

(** C10. [signers] has no fallback: when the answer is a success and
    reading [signers] from it gives [undefined], [swapTx] throws instead
    of returning a result without signers. *)
Theorem swapTx_fails_without_signers :
  forall (L : Externals) (resp : Response) (this : SwapSDK)
         (params : SwapRequestParams) (data : value),
    ok resp = true -> json resp = Ok data ->
    JS.get data "signers" = Ok Undefined ->
    exists e, outcome (swapTx L (mock resp) this params) = Err e.
Proof.
  intros L resp this params data Hok Hjson Habsent.
  rewrite (swapTx_answered L resp this params data Hok Hjson).
  destruct (result_cases (swapTx_body L data)) as [[r Hr]|[e He]]; [|eauto].
  exfalso. unfold swapTx_body in Hr. steps Hr.
  match goal with
  | Hg : JS.get data "signers" = Ok ?v, Hm : JS.map ?v _ = Ok _ |- _ =>
      rewrite Habsent in Hg; inversion Hg; subst; discriminate Hm
  end.
Qed.

Lemma swapTx_fails_without_signers_witness :
  exists e,
    outcome (swapTx Stub.lib (mock (success Stub.unsignedQuote))
               Stub.sdk Stub.params) = Err e.
Proof.
  apply (swapTx_fails_without_signers Stub.lib _ Stub.sdk Stub.params
           Stub.unsignedQuote);
    reflexivity.
Defined.

(** C8. In [swapTx] and [swapIx], an answer that lacks [lookUpAccounts],
    [routePlan] or [inXs] is handled exactly as the same answer with that
    field set to the empty array: the two calls have the same outcome, and
    when the call returns, the result field that comes from the missing
    field is empty.  ([swapTx] never reads [inXs] and has no field for it.) *)
Theorem absent_array_fields_default_to_empty :
  forall (L : Externals) (resp resp' : Response) (this : SwapSDK)
         (params : SwapRequestParams) (props : list (string * value))
         (k : string),
    In k ["lookUpAccounts"; "routePlan"; "inXs"] ->
    JS.lookup k props = None ->
    ok resp = true -> json resp = Ok (Obj props) ->
    ok resp' = true -> json resp' = Ok (Obj ((k, Arr []) :: props)) ->
    outcome (swapTx L (mock resp) this params)
      = outcome (swapTx L (mock resp') this params)
    /\ outcome (swapIx L (mock resp) this params)
      = outcome (swapIx L (mock resp') this params)
    /\ (forall r, outcome (swapTx L (mock resp) this params) = Ok r ->
          (k = "lookUpAccounts" -> lookupAccounts r = [])
          /\ (k = "routePlan" -> routePlan r = []))
    /\ (forall r, outcome (swapIx L (mock resp) this params) = Ok r ->
          (k = "lookUpAccounts" -> ix_lookupAccounts r = [])
          /\ (k = "routePlan" -> ix_routePlan r = [])
          /\ (k = "inXs" -> instructionGroups r = [])).
Proof.
  intros L resp resp' this params props k Hk Hnone Hok Hjson Hok' Hjson'.
  rewrite (swapTx_answered L resp this params _ Hok Hjson).
  rewrite (swapTx_answered L resp' this params _ Hok' Hjson').
  rewrite (swapIx_answered L resp this params _ Hok Hjson).
  rewrite (swapIx_answered L resp' this params _ Hok' Hjson').
  assert (Hget : JS.get (Obj props) k = Ok Undefined)
    by (simpl; now rewrite Hnone).
  split; [|split; [|split]].
  - unfold swapTx_body, convertLookupAccounts, convertRoutePlan.
    simpl in Hk. destruct Hk as [<-|[<-|[<-|[]]]]; simpl; rewrite ?Hnone; reflexivity.
  - unfold swapIx_body, convertLookupAccounts, convertRoutePlan.
    simpl in Hk. destruct Hk as [<-|[<-|[<-|[]]]]; simpl; rewrite ?Hnone; reflexivity.
  - intros r Hr. unfold swapTx_body, convertLookupAccounts, convertRoutePlan in Hr.
    steps Hr. simpl. split; intros ->;
      repeat match goal with
             | Hg : JS.get (Obj props) _ = Ok ?v |- _ =>
                 rewrite Hget in Hg; inversion Hg; subst; clear Hg
             end;
      match goal with
      | Hm : JS.map (JS.or Undefined _) _ = Ok ?l |- ?l = [] =>
          simpl in Hm; now inversion Hm
      end.
  - intros r Hr. unfold swapIx_body, convertLookupAccounts, convertRoutePlan in Hr.
    steps Hr. simpl. repeat split; intros ->;
      repeat match goal with
             | Hg : JS.get (Obj props) _ = Ok ?v |- _ =>
                 rewrite Hget in Hg; inversion Hg; subst; clear Hg
             end;
      match goal with
      | Hm : JS.map (JS.or Undefined _) _ = Ok ?l |- ?l = [] =>
          simpl in Hm; now inversion Hm
      end.
Qed.

Lemma absent_array_fields_default_to_empty_witness :
  outcome (swapTx Stub.lib (mock (success (Obj Stub.sparseProps)))
             Stub.sdk Stub.params)
    = outcome (swapTx Stub.lib
                 (mock (success (Obj (("lookUpAccounts", Arr []) :: Stub.sparseProps))))
                 Stub.sdk Stub.params)
  /\ is_ok (outcome (swapTx Stub.lib (mock (success (Obj Stub.sparseProps)))
                       Stub.sdk Stub.params)) = true.
Proof.
  split; [|reflexivity].
  apply (absent_array_fields_default_to_empty Stub.lib
           (success (Obj Stub.sparseProps))
           (success (Obj (("lookUpAccounts", Arr []) :: Stub.sparseProps)))
           Stub.sdk Stub.params Stub.sparseProps "lookUpAccounts");
    [simpl; auto | reflexivity ..].
Defined.

(** ** The price *)

(** C9. [tokenPrice] returns [Number(data.price)]; for the body
    [{ "price": "1.2345" }] that is the double written 1.2345. *)
Theorem tokenPrice_is_Number_of_price :
  forall (L : Externals) (resp : Response) (this : SwapSDK)
         (tokenAddress : PublicKey) (data : value),
    ok resp = true -> json resp = Ok data ->
    outcome (tokenPrice L (mock resp) this tokenAddress)
      = (let* p := JS.get data "price" in Number L p)
    /\ (data = Obj [("price", Str "1.2345")] ->
        outcome (tokenPrice L (mock resp) this tokenAddress) = Ok 1.2345%float).
Proof.
  intros L resp this tokenAddress data Hok Hjson.
  rewrite (tokenPrice_answered L resp this tokenAddress data Hok Hjson).
  split; [reflexivity|]. intros ->. vm_compute. reflexivity.
Qed.

Lemma tokenPrice_is_Number_of_price_witness :
  outcome (tokenPrice Stub.lib (mock (success Stub.priceBody))
             Stub.sdk Stub.tokenA_key) = Ok 1.2345%float.
Proof.
  apply (tokenPrice_is_Number_of_price Stub.lib (success Stub.priceBody)
           Stub.sdk Stub.tokenA_key Stub.priceBody eq_refl eq_refl).
  reflexivity.
Defined.

(** ** Simulation *)

(** Induction over values, through the arrays and the objects. *)
Lemma value_induction (P : value -> Prop) :
  P Undefined -> P Null -> (forall b, P (Bool b)) -> (forall n, P (Num n)) ->
  (forall s, P (Str s)) ->
  (forall l, Forall P l -> P (Arr l)) ->
  (forall props, Forall (fun kv => P (snd kv)) props -> P (Obj props)) ->
  forall v, P v.
Proof.
  intros HU HN HB HNum HS HA HO.
  refine (fix IH (v : value) : P v :=
            match v with
            | Undefined => HU
            | Null => HN
            | Bool b => HB b
            | Num n => HNum n
            | Str s => HS s
            | Arr l =>
                HA l ((fix go (l : list value) : Forall P l :=
                         match l with
                         | [] => Forall_nil _
                         | x :: xs => Forall_cons _ (IH x) (go xs)
                         end) l)
            | Obj props =>
                HO props
                  ((fix go (l : list (string * value))
                      : Forall (fun kv => P (snd kv)) l :=
                      match l with
                      | [] => Forall_nil _
                      | kv :: xs => Forall_cons _ (IH (snd kv)) (go xs)
                      end) props)
            end).
Qed.

(** [toString] throws nothing but type errors. *)
Lemma toString_throws_TypeError (L : Externals) (v : value) (e : exn) :
  toString L v = Err e -> e = TypeError.
Proof.
  revert e. induction v as [| |b|n|s|l IH|props _] using value_induction;
    intros e; simpl; try discriminate; try (intros H; now inversion H).
  - match goal with
    | |- rbind ?parts _ = _ -> _ => assert (Hparts : forall e', parts = Err e' -> e' = TypeError)
    end.
    { induction IH as [|x xs Hx _ IHxs]; intros e'; [discriminate|].
      destruct (match x with Undefined | Null => Ok "" | _ => toString L x end)
        as [sx|ex] eqn:Hsx; simpl.
      - match goal with
        | |- rbind ?rest _ = _ -> _ => destruct rest as [ss|es] eqn:Hrest
        end; simpl; [discriminate|].
        intros H. inversion H; subst. now apply IHxs.
      - intros H. inversion H; subst.
        destruct x; try discriminate; now apply Hx. }
    match goal with
    | |- rbind ?parts _ = _ -> _ => destruct parts as [ps|ep] eqn:Hp
    end; simpl; [discriminate|].
    intros H. inversion H; subst. now apply Hparts.
  - destruct (JS.hasOwn "toString" props); [|discriminate].
    intros H. now inversion H.
Qed.

(** C4. Let the node answer a simulation with the outcome [value], whose
    error field reads [err]; the field is present when it is truthy, as
    [if (value.err)] tests it.  [simulateTransaction] throws
    [TooManyAccountsLockError] exactly when [err] is present and its string
    form contains "TooManyAccountLocks".  When [err] is present with a
    string form that does not contain the marker, and when there is no
    [err] ([undefined], [null], or any other falsy value), the call returns
    [value] itself. *)
Theorem simulateTransaction_translates_only_account_locks :
  forall (L : Externals) (connection : Connection L)
         (transaction : VersionedTransaction L) (response value err : value),
    conn_simulateTransaction L connection transaction
      (Obj [("commitment", Str "confirmed")]) = Ok response ->
    JS.get response "value" = Ok value ->
    JS.get value "err" = Ok err ->
    let call := outcome (simulateTransaction L connection transaction) in
    ((exists m, call = Err (TooManyAccountsLockError m))
       <-> (JS.truthy err = true
            /\ exists s, toString L err = Ok s /\ substring "TooManyAccountLocks" s))
    /\ (forall s, JS.truthy err = true -> toString L err = Ok s ->
          ~ substring "TooManyAccountLocks" s -> call = Ok value)
    /\ (err = Undefined \/ err = Null \/ JS.truthy err = false -> call = Ok value).
Proof.
  intros L connection transaction response value err Hsim Hvalue Herr call.
  assert (Hcall : call = (let* _ := (if JS.truthy err
                                     then handleSimulationError L err
                                     else Ok tt) in Ok value)).
  { unfold call, simulateTransaction, await, settle, outcome.
    rewrite Hsim. simpl. rewrite Hvalue. simpl. rewrite Herr. reflexivity. }
  split; [|split].
  - rewrite Hcall. split.
    + intros (m & Hm). destruct (JS.truthy err); [|discriminate].
      split; [reflexivity|].
      unfold handleSimulationError in Hm.
      destruct (toString L err) as [s|e] eqn:Hs; simpl in Hm;
        [|apply toString_throws_TypeError in Hs; subst; discriminate].
      destruct (JS.includes "TooManyAccountLocks" s) eqn:Hinc;
        [|simpl in Hm; discriminate].
      exists s. split; [reflexivity|]. now apply includes_spec.
    + intros (Ht & s & Hs & Hsub). rewrite Ht.
      unfold handleSimulationError. rewrite Hs. simpl.
      apply includes_spec in Hsub. rewrite Hsub. simpl. eauto.
  - intros s Ht Hs Hnot. rewrite Hcall, Ht. unfold handleSimulationError.
    rewrite Hs. simpl.
    destruct (JS.includes "TooManyAccountLocks" s) eqn:Hinc; [|reflexivity].
    apply includes_spec in Hinc. contradiction.
  - intros [-> | [-> | Hf]]; rewrite Hcall; try rewrite Hf; reflexivity.
Qed.

Lemma simulateTransaction_translates_only_account_locks_witness :
  (exists m,
     outcome (simulateTransaction Stub.lib
                (Stub.node (Str "TooManyAccountLocks")) Stub.emptyTx)
     = Err (TooManyAccountsLockError m))
  /\ outcome (simulateTransaction Stub.lib
                (Stub.node (Str "AccountInUse")) Stub.emptyTx)
     = Ok (Stub.simulated (Str "AccountInUse"))
  /\ outcome (simulateTransaction Stub.lib (Stub.node Null) Stub.emptyTx)
     = Ok (Stub.simulated Null).
Proof.
  pose proof (fun err =>
    simulateTransaction_translates_only_account_locks Stub.lib (Stub.node err)
      Stub.emptyTx (Stub.rpcAnswer err) (Stub.simulated err) err
      eq_refl eq_refl eq_refl) as H.
  split; [|split].
  - apply (proj1 (H (Str "TooManyAccountLocks"))). split; [reflexivity|].
    exists "TooManyAccountLocks". split; [reflexivity|].
    now exists "", "".
  - apply (proj1 (proj2 (H (Str "AccountInUse"))) "AccountInUse");
      [reflexivity | reflexivity |].
    intros Hsub. apply includes_spec in Hsub. discriminate.
  - apply (proj2 (proj2 (H Null))). auto.
Defined.

(** ** Reshaping keeps every element, in order *)

Lemma Forall2_In_left {A B} (R : A -> B -> Prop) l l' a :
  Forall2 R l l' -> In a l -> exists b, In b l' /\ R a b.
Proof.
  induction 1 as [|x y l l' Hxy _ IH]; intros Hin; [contradiction|].
  destruct Hin as [->|Hin].
  - exists y. split; [now left | assumption].
  - destruct (IH Hin) as (b & Hb & HR). exists b. split; [now right | assumption].
Qed.

Lemma Forall2_map {A B A' B'} (R : A -> B -> Prop) (Q : A' -> B' -> Prop)
    (f : A -> A') (g : B -> B') l l' :
  (forall a b, R a b -> Q (f a) (g b)) ->
  Forall2 R l l' -> Forall2 Q (List.map f l) (List.map g l').
Proof. intros HRQ. induction 1; simpl; constructor; auto. Qed.

Lemma Forall2_flat_map {A B A' B'} (R : A -> B -> Prop) (Q : A' -> B' -> Prop)
    (f : A -> list A') (g : B -> list B') l l' :
  (forall a b, R a b -> Forall2 Q (f a) (g b)) ->
  Forall2 R l l' -> Forall2 Q (flat_map f l) (flat_map g l').
Proof.
  intros HRQ. induction 1; simpl; [constructor|]. apply Forall2_app; auto.
Qed.

Lemma Forall2_weaken {A B} (R Q : A -> B -> Prop) l l' :
  (forall a b, R a b -> Q a b) -> Forall2 R l l' -> Forall2 Q l l'.
Proof. intros HRQ. induction 1; constructor; auto. Qed.

(** A defaulted array read that was traversed: the elements visited are
    those of [elems], each with its image. *)
Lemma defaulted_map {B} (v x : value) (k : string) (f : value -> result B) bs :
  JS.get v k = Ok x -> JS.map (JS.or x (Arr [])) f = Ok bs ->
  Forall2 (fun a b => f a = Ok b) (elems (field v k)) bs.
Proof.
  intros Hget Hmap. apply JS_map_Forall2 in Hmap. destruct Hmap as (l & Hl & HF).
  rewrite (get_field _ _ _ Hget), (or_empty_elems _ _ Hl). exact HF.
Qed.

Section Reshaping.

Context (L : Externals).

Lemma convertLookupAccounts_spec data accounts :
  convertLookupAccounts L data = Ok accounts ->
  Forall2 (parses L) (lookup_addresses data) accounts.
Proof.
  unfold convertLookupAccounts. intros H. steps H.
  eapply defaulted_map; eauto.
Qed.

Lemma convertRoutePlan_spec data plan :
  convertRoutePlan L data = Ok plan ->
  Forall2 (step_matches L) (elems (field data "routePlan")) plan.
Proof.
  unfold convertRoutePlan. intros H. steps H.
  eapply Forall2_weaken; [|eapply defaulted_map; eauto].
  intros raw s Hs. simpl in Hs. steps Hs. unfold step_matches, parses. simpl.
  repeat match goal with
         | Hg : JS.get _ _ = Ok _ |- _ => apply get_field in Hg; rewrite Hg
         end.
  auto.
Qed.

Lemma convertAPIInstruction_spec raw i :
  convertAPIInstruction L raw = Ok i -> instruction_matches L raw i.
Proof.
  unfold convertAPIInstruction. intros H. steps H.
  unfold instruction_matches, parses. simpl.
  repeat match goal with
         | Hg : JS.get raw ?k = Ok _ |- _ =>
             lazymatch k with
             | "keys" => fail
             | _ => apply get_field in Hg; rewrite Hg
             end
         end.
  split; [|auto].
  eapply Forall2_weaken; [|eapply defaulted_map; eauto].
  intros rk m Hm. simpl in Hm. steps Hm. unfold key_matches, parses. simpl.
  repeat match goal with
         | Hg : JS.get _ _ = Ok _ |- _ => apply get_field in Hg; rewrite Hg
         end.
  auto.
Qed.

Lemma convertGroup_spec raw g :
  convertGroup L raw = Ok g -> group_matches L raw g.
Proof.
  unfold convertGroup. intros H. steps H. unfold group_matches. simpl.
  split; [|split].
  - eapply Forall2_weaken; [|eapply defaulted_map; eauto].
    intros a b. apply convertAPIInstruction_spec.
  - eapply Forall2_weaken; [|eapply defaulted_map; eauto].
    intros a b. apply convertAPIInstruction_spec.
  - match goal with
    | Hg : JS.get raw "signers" = Ok _ |- _ => now rewrite (get_field _ _ _ Hg)
    end.
Qed.

Lemma convertToken_spec raw t :
  convertToken L raw = Ok t -> token_matches L raw t.
Proof.
  unfold convertToken. intros H. steps H. unfold token_matches, parses. simpl.
  repeat match goal with
         | Hg : JS.get _ _ = Ok _ |- _ => apply get_field in Hg; rewrite Hg
         end.
  auto 10.
Qed.

End Reshaping.

Section Addresses.

Context (L : Externals).

Lemma route_addresses_parse data plan :
  convertRoutePlan L data = Ok plan ->
  Forall2 (parses L) (route_addresses data) (route_keys plan).
Proof.
  intros H. apply convertRoutePlan_spec in H.
  unfold route_addresses, route_keys.
  eapply Forall2_flat_map; [|exact H].
  intros raw s (Ha & Hb & _). repeat constructor; assumption.
Qed.

Lemma instruction_addresses_parse raw i :
  instruction_matches L raw i ->
  Forall2 (parses L) (instruction_addresses raw) (instruction_keys i).
Proof.
  intros (Hkeys & Hpid & _). unfold instruction_addresses, instruction_keys.
  apply Forall2_app; [|repeat constructor; assumption].
  eapply Forall2_map; [|exact Hkeys]. now intros rk m (Hp & _).
Qed.

Lemma group_addresses_parse raw g :
  group_matches L raw g ->
  Forall2 (parses L) (group_addresses raw) (group_keys g).
Proof.
  intros (Hi & Hc & _). unfold group_addresses, group_keys.
  apply Forall2_app;
    (eapply Forall2_flat_map; [|eassumption]);
    intros a b; apply instruction_addresses_parse.
Qed.

Lemma swapTx_addresses_parse data r :
  swapTx_body L data = Ok r -> Forall2 (parses L) (tx_addresses data) (tx_keys r).
Proof.
  unfold swapTx_body. intros H. steps H. unfold tx_addresses, tx_keys. simpl.
  apply Forall2_app;
    [now apply convertLookupAccounts_spec | now apply route_addresses_parse].
Qed.

Lemma swapIx_groups_match data r :
  swapIx_body L data = Ok r ->
  Forall2 (group_matches L) (elems (field data "inXs")) (instructionGroups r).
Proof.
  unfold swapIx_body. intros H. steps H. simpl.
  eapply Forall2_weaken; [|eapply defaulted_map; eauto].
  intros a b. apply convertGroup_spec.
Qed.

Lemma swapIx_addresses_parse data r :
  swapIx_body L data = Ok r -> Forall2 (parses L) (ix_addresses data) (ix_keys r).
Proof.
  intros H. pose proof (swapIx_groups_match _ _ H) as Hg.
  unfold swapIx_body in H. steps H. unfold ix_addresses, ix_keys. simpl in *.
  apply Forall2_app; [now apply convertLookupAccounts_spec|].
  apply Forall2_app; [now apply route_addresses_parse|].
  eapply Forall2_flat_map; [|exact Hg].
  intros a b. apply group_addresses_parse.
Qed.

Lemma tokenList_tokens_match data r :
  JS.map data (convertToken L) = Ok r ->
  Forall2 (token_matches L) (elems data) r.
Proof.
  intros H. apply JS_map_Forall2 in H. destruct H as (l & -> & HF). simpl.
  eapply Forall2_weaken; [|exact HF]. intros a b. apply convertToken_spec.
Qed.

(** A call that returns has parsed every address it met. *)
Lemma rejected_throws {A} (call : result A) (addresses : list value)
    (keys_of : A -> list PublicKey) :
  (forall r, call = Ok r -> Forall2 (parses L) addresses (keys_of r)) ->
  rejected L addresses -> exists e, call = Err e.
Proof.
  intros Hall (a & e & Hin & Hbad).
  destruct (result_cases call) as [[r Hr]|[e' He']]; [|eauto].
  destruct (Forall2_In_left _ _ _ _ (Hall r Hr) Hin) as (k & _ & Hk).
  unfold parses in Hk. congruence.
Qed.

End Addresses.

(** C5. Every address-like field of an answer goes through the key
    constructor, and a refusal there ends the call: for [swapTx] (lookup
    accounts, route-plan tokens), [swapIx] (these, and the keys and program
    id of every instruction and cleanup instruction) and [tokenList]
    (token addresses), if some address of the answer is refused the call
    throws; and a call that returns carries, in order, one parsed key for
    each address of the answer — none is left out. *)
Theorem invalid_address_aborts_the_call :
  forall (L : Externals) (resp : Response) (this : SwapSDK)
         (params : SwapRequestParams) (data : value),
    ok resp = true -> json resp = Ok data ->
    ((rejected L (tx_addresses data) ->
        exists e, outcome (swapTx L (mock resp) this params) = Err e)
     /\ (forall r, outcome (swapTx L (mock resp) this params) = Ok r ->
           Forall2 (parses L) (tx_addresses data) (tx_keys r)))
    /\ ((rejected L (ix_addresses data) ->
           exists e, outcome (swapIx L (mock resp) this params) = Err e)
        /\ (forall r, outcome (swapIx L (mock resp) this params) = Ok r ->
              Forall2 (parses L) (ix_addresses data) (ix_keys r)))
    /\ ((rejected L (token_addresses data) ->
           exists e, outcome (tokenList L (mock resp) this) = Err e)
        /\ (forall r, outcome (tokenList L (mock resp) this) = Ok r ->
              Forall2 (parses L) (token_addresses data) (List.map address r))).
Proof.
  intros L resp this params data Hok Hjson.
  rewrite (swapTx_answered L resp this params data Hok Hjson).
  rewrite (swapIx_answered L resp this params data Hok Hjson).
  rewrite (tokenList_answered L resp this data Hok Hjson).
  assert (Htok : forall r, JS.map data (convertToken L) = Ok r ->
                   Forall2 (parses L) (token_addresses data) (List.map address r)).
  { intros r Hr. apply tokenList_tokens_match in Hr. unfold token_addresses.
    eapply Forall2_map; [|exact Hr]. now intros a b (Ha & _). }
  repeat split.
  - apply rejected_throws with (keys_of := tx_keys). apply swapTx_addresses_parse.
  - apply swapTx_addresses_parse.
  - apply rejected_throws with (keys_of := ix_keys). apply swapIx_addresses_parse.
  - apply swapIx_addresses_parse.
  - apply rejected_throws with (keys_of := List.map address). exact Htok.
  - exact Htok.
Qed.

Lemma invalid_address_aborts_the_call_witness :
  (exists e, outcome (swapTx Stub.lib (mock (success Stub.badQuote))
                        Stub.sdk Stub.params) = Err e)
  /\ (forall r, outcome (swapTx Stub.lib (mock (success Stub.quote))
                          Stub.sdk Stub.params) = Ok r ->
        Forall2 (parses Stub.lib) (tx_addresses Stub.quote) (tx_keys r))
  /\ is_ok (outcome (swapTx Stub.lib (mock (success Stub.quote))
                       Stub.sdk Stub.params)) = true.
Proof.
  split; [|split].
  - apply (invalid_address_aborts_the_call Stub.lib (success Stub.badQuote)
             Stub.sdk Stub.params Stub.badQuote eq_refl eq_refl).
    exists (Str "0OIl"), (Error "Non-base58 character").
    split; [simpl; auto | reflexivity].
  - apply (invalid_address_aborts_the_call Stub.lib (success Stub.quote)
             Stub.sdk Stub.params Stub.quote eq_refl eq_refl).
  - reflexivity.
Defined.

(** ** Signing *)

(** C2. Let a successful answer to [/bestSwapRoute] list the signer
    secrets [secrets].  Whenever [swapTx] returns, its [signers] are the
    keypairs of all the secrets, one for each and in the order listed, and
    its transaction is the decoded one after a single [sign] with exactly
    those keypairs: a result signed by only some of them is never returned.
    And [swapTx] does return, with that result, as soon as every part of
    the answer converts. *)
Theorem swapTx_signs_with_every_signer :
  forall (L : Externals) (resp : Response) (this : SwapSDK)
         (params : SwapRequestParams) (data : value) (secrets : list value),
    ok resp = true -> json resp = Ok data ->
    JS.get data "signers" = Ok (Arr secrets) ->
    let call := outcome (swapTx L (mock resp) this params) in
    (forall r, call = Ok r ->
       Forall2 (fun s k => keypairOfSigner L s = Ok k) secrets (signers r)
       /\ List.length (signers r) = List.length secrets
       /\ exists tx64 txBuffer decoded,
            JS.get data "transaction" = Ok tx64
            /\ Buffer_from_base64 L tx64 = Ok txBuffer
            /\ VersionedTransaction_deserialize L txBuffer = Ok decoded
            /\ VersionedTransaction_sign L decoded (signers r) = Ok (transaction r))
    /\ (forall tx64 txBuffer decoded accounts plan keypairs signed out outUi,
          JS.get data "transaction" = Ok tx64 ->
          Buffer_from_base64 L tx64 = Ok txBuffer ->
          VersionedTransaction_deserialize L txBuffer = Ok decoded ->
          convertLookupAccounts L data = Ok accounts ->
          convertRoutePlan L data = Ok plan ->
          Forall2 (fun s k => keypairOfSigner L s = Ok k) secrets keypairs ->
          VersionedTransaction_sign L decoded keypairs = Ok signed ->
          (let* a := JS.get data "amountOut" in Number L a) = Ok out ->
          (let* a := JS.get data "amountOutUi" in Number L a) = Ok outUi ->
          call = Ok {| transaction := signed;
                       amountOut := out;
                       amountOutUi := outUi;
                       routePlan := plan;
                       lookupAccounts := accounts;
                       signers := keypairs |}).
Proof.
  intros L resp this params data secrets Hok Hjson Hsecrets call.
  unfold call. rewrite (swapTx_answered L resp this params data Hok Hjson).
  split.
  - intros r Hr. unfold swapTx_body in Hr. steps Hr. simpl.
    match goal with
    | Hg : JS.get data "signers" = Ok ?v, Hm : JS.map ?v _ = Ok ?ks |- _ =>
        rewrite Hsecrets in Hg; inversion Hg; subst; clear Hg;
        simpl in Hm; apply mapM_Forall2 in Hm
    end.
    split; [assumption|].
    split; [symmetry; eapply Forall2_length; eassumption|].
    eauto 10.
  - intros tx64 txBuffer decoded accounts plan keypairs signed out outUi
           Htx Hbuf Hdec Hacc Hplan Hkeys Hsign Hout HoutUi.
    unfold swapTx_body.
    rewrite Htx; simpl. rewrite Hbuf; simpl. rewrite Hdec; simpl.
    rewrite Hacc; simpl. rewrite Hplan; simpl. rewrite Hsecrets; simpl.
    apply mapM_Forall2 in Hkeys. rewrite Hkeys; simpl.
    rewrite Hsign; simpl. rewrite Hout; simpl. rewrite HoutUi; simpl.
    reflexivity.
Qed.

Lemma swapTx_signs_with_every_signer_witness :
  exists r,
    outcome (swapTx Stub.lib (mock (success Stub.quote)) Stub.sdk Stub.params) = Ok r
    /\ List.length (signers r) = 2
    /\ Stub.signatures (transaction r)
       = [repeat Byte.x00 64; repeat Byte.x00 63 ++ [Byte.x01]]
    /\ Stub.message (transaction r) = [Byte.x01; Byte.x02; Byte.x03].
Proof.
  destruct (swapTx_signs_with_every_signer Stub.lib (success Stub.quote)
              Stub.sdk Stub.params Stub.quote
              [Str Stub.secret0; Str Stub.secret1] eq_refl eq_refl eq_refl)
    as [Hall Hreturns].
  eexists. split.
  - eapply Hreturns; try (vm_compute; reflexivity).
    repeat (constructor; [vm_compute; reflexivity|]). constructor.
  - repeat split; vm_compute; reflexivity.
Defined.

(** ** Instructions *)

(** C6. Let a successful answer carry the instruction groups [groups]
    (K of them).  Whenever [swapIx] returns, its result has K groups, and
    group by group the instructions, the cleanup instructions and the
    signers are those of the raw group: same lengths, same order, each
    instruction the raw one with its keys, program id and data retyped and
    nothing else changed; the other fields of the result are the raw
    ones retyped in the same way.  And [swapIx] does return, with that
    result, as soon as every part of the answer converts. *)
Theorem swapIx_keeps_the_structure :
  forall (L : Externals) (resp : Response) (this : SwapSDK)
         (params : SwapRequestParams) (data : value) (groups : list value),
    ok resp = true -> json resp = Ok data ->
    JS.get data "inXs" = Ok (Arr groups) ->
    let call := outcome (swapIx L (mock resp) this params) in
    (forall r, call = Ok r ->
       List.length (instructionGroups r) = List.length groups
       /\ Forall2 (group_matches L) groups (instructionGroups r)
       /\ Forall2 (fun raw g =>
                     List.length (instructions g)
                       = List.length (elems (field raw "instructions"))
                     /\ List.length (cleanupInstructions g)
                        = List.length (elems (field raw "cleanupInstructions"))
                     /\ forall ss, field raw "signers" = Arr ss ->
                                   group_signers g = Arr ss)
            groups (instructionGroups r)
       /\ Forall2 (parses L) (lookup_addresses data) (ix_lookupAccounts r)
       /\ Forall2 (step_matches L) (elems (field data "routePlan")) (ix_routePlan r)
       /\ Number L (field data "amountOut") = Ok (ix_amountOut r)
       /\ Number L (field data "amountOutUi") = Ok (ix_amountOutUi r)
       /\ ix_signers r = field data "signers")
    /\ (forall accounts plan typed out outUi,
          convertLookupAccounts L data = Ok accounts ->
          convertRoutePlan L data = Ok plan ->
          Forall2 (fun raw g => convertGroup L raw = Ok g) groups typed ->
          Number L (field data "amountOut") = Ok out ->
          Number L (field data "amountOutUi") = Ok outUi ->
          call = Ok {| instructionGroups := typed;
                       ix_amountOut := out;
                       ix_amountOutUi := outUi;
                       ix_routePlan := plan;
                       ix_lookupAccounts := accounts;
                       ix_signers := field data "signers" |}).
Proof.
  intros L resp this params data groups Hok Hjson HinXs call.
  unfold call. rewrite (swapIx_answered L resp this params data Hok Hjson).
  assert (Hreadable : forall k, JS.get data k = Ok (field data k)).
  { intros k. unfold field. destruct data; try reflexivity; discriminate. }
  split.
  - intros r Hr. pose proof (swapIx_groups_match L data r Hr) as Hgroups.
    rewrite (get_field _ _ _ HinXs) in Hgroups. simpl in Hgroups.
    split; [symmetry; eapply Forall2_length; eassumption|].
    split; [assumption|].
    split.
    { eapply Forall2_weaken; [|exact Hgroups].
      intros raw g (Hi & Hc & Hs).
      split; [symmetry; eapply Forall2_length; eassumption|].
      split; [symmetry; eapply Forall2_length; eassumption|].
      intros ss Hss. now rewrite Hs, Hss. }
    unfold swapIx_body in Hr. steps Hr. simpl.
    repeat match goal with
           | Hg : JS.get data ?k = Ok ?v |- _ =>
               rewrite (Hreadable k) in Hg; inversion Hg; subst; clear Hg
           end.
    split; [now apply convertLookupAccounts_spec|].
    split; [now apply convertRoutePlan_spec|].
    auto.
  - intros accounts plan typed out outUi Hacc Hplan Htyped Hout HoutUi.
    unfold swapIx_body.
    rewrite Hacc; simpl. rewrite Hplan; simpl. rewrite HinXs; simpl.
    apply mapM_Forall2 in Htyped. rewrite Htyped; simpl.
    rewrite !Hreadable; simpl. rewrite Hout; simpl. rewrite HoutUi; simpl.
    reflexivity.
Qed.

Lemma swapIx_keeps_the_structure_witness :
  exists r,
    outcome (swapIx Stub.lib (mock (success Stub.quoteIx)) Stub.sdk Stub.params) = Ok r
    /\ List.length (instructionGroups r) = 1
    /\ List.map (fun g => (List.length (instructions g),
                           List.length (cleanupInstructions g),
                           group_signers g)) (instructionGroups r)
       = [(2, 1, Arr [Str Stub.secret0])].
Proof.
  destruct (swapIx_keeps_the_structure Stub.lib (success Stub.quoteIx)
              Stub.sdk Stub.params Stub.quoteIx
              (elems (field Stub.quoteIx "inXs")) eq_refl eq_refl eq_refl)
    as [Hall Hreturns].
  eexists. split.
  - eapply Hreturns; try (vm_compute; reflexivity).
    repeat (constructor; [vm_compute; reflexivity|]). constructor.
  - split; vm_compute; reflexivity.
Defined.

(** ** Numerals *)

Section Numerals.

Variable b : N.
Hypothesis b_ge_2 : (2 <= b)%N.

Local Open Scope N_scope.

Import Radix.

Lemma of_digits_snoc ds d :
  Radix.of_digits b (ds ++ [d]) = Radix.of_digits b ds * b + d.
Proof. unfold Radix.of_digits. now rewrite fold_left_app. Qed.

Lemma of_digits_zeros k ds :
  Radix.of_digits b (repeat 0 k ++ ds) = Radix.of_digits b ds.
Proof.
  unfold Radix.of_digits. rewrite fold_left_app.
  replace (fold_left (fun acc d => acc * b + d) (repeat 0 k) 0) with 0;
    [reflexivity|].
  induction k; simpl; [reflexivity | assumption].
Qed.

Lemma to_digits_aux_acc fuel n acc :
  Radix.to_digits_aux b fuel n acc = (Radix.to_digits_aux b fuel n [] ++ acc)%list.
Proof.
  revert n acc. induction fuel as [|fuel IH]; intros n acc; simpl; [reflexivity|].
  destruct (n =? 0); [reflexivity|].
  rewrite IH, (IH _ [_]), <- app_assoc. reflexivity.
Qed.

Lemma half_bound n fuel : n < 2 ^ N.of_nat (S fuel) -> n / b < 2 ^ N.of_nat fuel.
Proof.
  rewrite Nat2N.inj_succ, N.pow_succ_r'. intros Hn.
  apply N.le_lt_trans with (n / 2).
  - apply N.div_le_compat_l. lia.
  - apply N.Div0.div_lt_upper_bound. lia.
Qed.

Lemma to_digits_aux_fuel fuel fuel' n acc :
  n < 2 ^ N.of_nat fuel -> n < 2 ^ N.of_nat fuel' ->
  Radix.to_digits_aux b fuel n acc = Radix.to_digits_aux b fuel' n acc.
Proof.
  revert fuel' n acc. induction fuel as [|fuel IH]; intros fuel' n acc Hn Hn'.
  - simpl in Hn. assert (n = 0) by lia. subst.
    destruct fuel'; reflexivity.
  - destruct fuel' as [|fuel'].
    + simpl in Hn'. assert (n = 0) by lia. subst. reflexivity.
    + simpl. destruct (N.eqb_spec n 0); [reflexivity|].
      apply IH; now apply half_bound.
Qed.

Lemma log2_fuel n : n < 2 ^ N.of_nat (S (N.to_nat (N.log2 n))).
Proof.
  rewrite Nat2N.inj_succ, N2Nat.id.
  destruct (N.eq_dec n 0) as [->|Hn].
  - simpl. lia.
  - apply N.log2_spec. lia.
Qed.

Lemma to_digits_zero : Radix.to_digits b 0 = [].
Proof. reflexivity. Qed.

Lemma to_digits_step n :
  n <> 0 -> Radix.to_digits b n = (Radix.to_digits b (n / b) ++ [n mod b])%list.
Proof.
  intros Hn. unfold Radix.to_digits at 1. simpl.
  destruct (N.eqb_spec n 0); [contradiction|].
  rewrite to_digits_aux_acc. f_equal.
  unfold Radix.to_digits. apply to_digits_aux_fuel.
  - apply half_bound, log2_fuel.
  - apply log2_fuel.
Qed.

Lemma div_smaller n : n <> 0 -> n / b < n.
Proof. intros Hn. apply N.div_lt; lia. Qed.

Lemma of_to_digits n : Radix.of_digits b (Radix.to_digits b n) = n.
Proof.
  induction n as [n IH] using (well_founded_induction N.lt_wf_0).
  destruct (N.eq_dec n 0) as [->|Hn]; [reflexivity|].
  rewrite (to_digits_step n Hn), of_digits_snoc, (IH _ (div_smaller n Hn)).
  rewrite N.mul_comm. symmetry. apply N.div_mod. lia.
Qed.

Lemma to_digits_nil n : Radix.to_digits b n = [] -> n = 0.
Proof. intros H. rewrite <- (of_to_digits n), H. reflexivity. Qed.

Lemma to_digits_bounded n : Forall (fun d => d < b) (Radix.to_digits b n).
Proof.
  induction n as [n IH] using (well_founded_induction N.lt_wf_0).
  destruct (N.eq_dec n 0) as [->|Hn]; [constructor|].
  rewrite (to_digits_step n Hn). apply Forall_app. split.
  - apply IH, div_smaller, Hn.
  - constructor; [|constructor]. apply N.mod_lt. lia.
Qed.

Lemma canonical_app ds d : ds <> [] -> canonical ds -> canonical (ds ++ [d]).
Proof. destruct ds; [contradiction | intros _ H; exact H]. Qed.

Lemma canonical_prefix ds d : canonical (ds ++ [d]) -> canonical ds.
Proof. destruct ds; [discriminate | intros H; exact H]. Qed.

Lemma to_digits_canonical n : canonical (Radix.to_digits b n).
Proof.
  induction n as [n IH] using (well_founded_induction N.lt_wf_0).
  destruct (N.eq_dec n 0) as [->|Hn]; [discriminate|].
  rewrite (to_digits_step n Hn).
  destruct (Radix.to_digits b (n / b)) as [|d ds] eqn:Hq.
  - apply to_digits_nil in Hq. simpl. unfold canonical. simpl.
    intros H. inversion H as [Hmod].
    pose proof (N.div_mod n b ltac:(lia)) as Hdm.
    rewrite Hq, Hmod in Hdm. lia.
  - apply canonical_app; [discriminate|]. rewrite <- Hq.
    apply IH, div_smaller, Hn.
Qed.

(** A numeral without leading zeros is the numeral of its value. *)
Lemma to_of_digits ds :
  canonical ds -> Forall (fun d => d < b) ds ->
  Radix.to_digits b (Radix.of_digits b ds) = ds.
Proof.
  induction ds as [|d ds IH] using rev_ind; intros Hc Hb; [reflexivity|].
  apply Forall_app in Hb. destruct Hb as [Hds Hd].
  inversion Hd as [|? ? Hdb _]; subst.
  specialize (IH (canonical_prefix _ _ Hc) Hds).
  rewrite of_digits_snoc.
  assert (Hv : Radix.of_digits b ds * b + d <> 0).
  { destruct ds as [|d0 ds0].
    - simpl. intros ->. now apply Hc.
    - assert (Radix.of_digits b (d0 :: ds0) <> 0).
      { intros H0. rewrite H0, to_digits_zero in IH. discriminate. }
      nia. }
  rewrite (to_digits_step _ Hv).
  rewrite N.div_add_l by lia. rewrite (N.div_small d b Hdb), N.add_0_r, IH.
  rewrite N.add_comm, N.Div0.mod_add, (N.mod_small d b Hdb). reflexivity.
Qed.

End Numerals.

(** ** Leading zeros *)

Lemma leading_split {A} (is_z : A -> bool) (z : A) (l : list A) k rest :
  (forall a, is_z a = true <-> a = z) ->
  Radix.leading is_z l = (k, rest) ->
  l = repeat z k ++ rest /\ (forall a, hd_error rest = Some a -> a <> z).
Proof.
  intros Hz. revert k rest. induction l as [|a l IH]; intros k rest; simpl.
  - intros H. inversion H; subst. split; [reflexivity | discriminate].
  - destruct (is_z a) eqn:Ha.
    + destruct (Radix.leading is_z l) as [k' r'] eqn:Hl.
      intros H. inversion H; subst.
      destruct (IH _ _ eq_refl) as [-> Hhd].
      apply Hz in Ha. subst. split; [reflexivity | exact Hhd].
    + intros H. inversion H; subst. split; [reflexivity|].
      simpl. intros a' Ha'. inversion Ha'; subst.
      intros ->. assert (is_z z = true) by now apply Hz. congruence.
Qed.

Lemma leading_repeat {A} (is_z : A -> bool) (z : A) k rest :
  (forall a, is_z a = true <-> a = z) ->
  (forall a, hd_error rest = Some a -> a <> z) ->
  Radix.leading is_z (repeat z k ++ rest) = (k, rest).
Proof.
  intros Hz Hhd. induction k as [|k IH]; simpl.
  - destruct rest as [|a rest]; [reflexivity|]. simpl.
    destruct (is_z a) eqn:Ha; [|reflexivity].
    apply Hz in Ha. exfalso. now apply (Hhd a).
  - rewrite (proj2 (Hz z) eq_refl), IH. reflexivity.
Qed.

(** ** Bytes and base-58 symbols *)

Lemma to_N_byte_of_N d : (d < 256)%N -> Byte.to_N (byte_of_N d) = d.
Proof.
  intros Hd. unfold byte_of_N. destruct (Byte.of_N d) as [x|] eqn:Hx.
  - now apply Byte.to_of_N.
  - apply Byte.of_N_None_iff in Hx. lia.
Qed.

Lemma is_x00_spec x : is_x00 x = true <-> x = Byte.x00.
Proof.
  unfold is_x00. split; [apply Byte.byte_dec_bl | apply Byte.byte_dec_lb].
Qed.

Lemma map_to_N_byte_of_N ds :
  Forall (fun d => (d < 256)%N) ds ->
  List.map Byte.to_N (List.map byte_of_N ds) = ds.
Proof.
  induction 1 as [|d ds Hd _ IH]; simpl; [reflexivity|].
  now rewrite (to_N_byte_of_N d Hd), IH.
Qed.

Lemma byte_of_N_head ds :
  Forall (fun d => (d < 256)%N) ds -> Radix.canonical ds ->
  forall x, hd_error (List.map byte_of_N ds) = Some x -> x <> Byte.x00.
Proof.
  intros Hb Hc x Hx. destruct ds as [|d ds]; [discriminate|].
  simpl in Hx. inversion Hx; subst. intros H0.
  inversion Hb as [|? ? Hd _]; subst.
  apply Hc. simpl. f_equal.
  rewrite <- (to_N_byte_of_N d Hd), H0. reflexivity.
Qed.

Lemma index_of_get c s d :
  index_of c s = Some d ->
  String.get (N.to_nat d) s = Some c /\ (N.to_nat d < String.length s)%nat.
Proof.
  revert d. induction s as [|c' s IH]; intros d; simpl; [discriminate|].
  destruct (Ascii.eqb_spec c c') as [->|Hne].
  - intros H. inversion H; subst. simpl. split; [reflexivity | lia].
  - destruct (index_of c s) as [d'|]; [|discriminate].
    simpl. intros H. inversion H; subst.
    destruct (IH d' eq_refl) as [Hget Hlt].
    rewrite N2Nat.inj_succ. simpl. split; [assumption | lia].
Qed.

Lemma digit_symbol c d :
  bs58.digit c = Some d -> bs58.symbol d = c /\ (d < bs58.BASE)%N.
Proof.
  unfold bs58.digit, bs58.symbol. intros H.
  apply index_of_get in H. destruct H as [-> Hlt]. split; [reflexivity|].
  change (String.length bs58.ALPHABET) with 58%nat in Hlt.
  unfold bs58.BASE. lia.
Qed.

Lemma digits_symbols s ds :
  bs58.digits s = Some ds ->
  List.map bs58.symbol ds = list_ascii_of_string s
  /\ Forall (fun d => (d < bs58.BASE)%N) ds.
Proof.
  revert ds. induction s as [|c s IH]; intros ds; simpl.
  - intros H. inversion H. split; [reflexivity | constructor].
  - destruct (bs58.digit c) as [d|] eqn:Hd; [|discriminate].
    destruct (bs58.digits s) as [ds'|]; [|discriminate].
    intros H. inversion H; subst.
    destruct (digit_symbol c d Hd) as [Hs Hlt].
    destruct (IH ds' eq_refl) as [Hmap Hall].
    simpl. rewrite Hs, Hmap. split; [reflexivity | now constructor].
Qed.

Lemma N_eqb_0_spec a : N.eqb 0 a = true <-> a = 0%N.
Proof. rewrite N.eqb_eq. split; congruence. Qed.

Lemma canonical_of_head (ds : list N) :
  (forall a, hd_error ds = Some a -> a <> 0%N) -> Radix.canonical ds.
Proof. intros H Hc. now apply (H 0%N). Qed.

(** ** bs58: decoding then encoding gives the text back *)

(** What [decode] returns: zero bytes for the leading "1"s, then the
    base-256 numeral of the rest. *)
Lemma decode_shape s bs :
  bs58.decode s = Ok bs ->
  exists k n rest,
    bs = repeat Byte.x00 k ++ List.map byte_of_N (Radix.to_digits 256 n)
    /\ bs58.digits s = Some (repeat 0%N k ++ rest)
    /\ Radix.canonical rest
    /\ n = Radix.of_digits bs58.BASE rest.
Proof.
  unfold bs58.decode. destruct (bs58.digits s) as [ds|] eqn:Hds; [|discriminate].
  destruct (Radix.leading (N.eqb 0) ds) as [k rest] eqn:Hl.
  intros H. inversion H; subst.
  destruct (leading_split _ 0%N _ _ _ N_eqb_0_spec Hl) as [-> Hhd].
  exists k, (Radix.of_digits bs58.BASE rest), rest.
  repeat split; try reflexivity. now apply canonical_of_head.
Qed.

Lemma map_repeat_symbol k :
  List.map bs58.symbol (repeat 0%N k) = repeat "1"%char k.
Proof. induction k; simpl; [reflexivity | now f_equal]. Qed.

Lemma bs58_encode_decode s bs : bs58.decode s = Ok bs -> bs58.encode bs = s.
Proof.
  intros H. destruct (decode_shape s bs H) as (k & n & rest & -> & Hds & Hc & ->).
  destruct (digits_symbols _ _ Hds) as [Hsym Hlt].
  apply Forall_app in Hlt. destruct Hlt as [_ Hlt].
  unfold bs58.encode.
  rewrite (leading_repeat is_x00 Byte.x00 k _ is_x00_spec).
  2:{ apply byte_of_N_head.
      - apply (to_digits_bounded 256). lia.
      - apply (to_digits_canonical 256). lia. }
  rewrite map_to_N_byte_of_N by (apply (to_digits_bounded 256); lia).
  rewrite (of_to_digits 256) by lia.
  rewrite (to_of_digits bs58.BASE) by (unfold bs58.BASE; lia || assumption).
  rewrite <- map_repeat_symbol, <- map_app, Hsym.
  apply string_of_list_ascii_of_string.
Qed.

(** ** Keys *)

(** A key built from base58 text prints as that text. *)
Lemma PublicKey_of_string_toString s k :
  web3.PublicKey_of_string s = Ok k -> web3.toString k = s.
Proof.
  unfold web3.PublicKey_of_string.
  destruct (bs58.decode s) as [decoded|] eqn:Hdec; simpl; [|discriminate].
  destruct (Nat.eqb_spec (List.length decoded) web3.PUBLIC_KEY_LENGTH)
    as [Hlen|]; simpl; [|discriminate].
  destruct (Nat.ltb _ _); [discriminate|].
  intros H. inversion H; subst. clear H.
  unfold web3.toString, web3.toBase58.
  transitivity (bs58.encode decoded); [|now apply bs58_encode_decode].
  f_equal.
  destruct (decode_shape s decoded Hdec) as (j & n & rest & -> & _ & _ & _).
  pose proof (to_digits_bounded 256 ltac:(lia) n) as Hb.
  pose proof (to_digits_canonical 256 ltac:(lia) n) as Hc.
  unfold web3.toBytes, web3.bn_toArray, web3.bn_of_bytes. simpl web3._bn.
  rewrite Zabs2N.id, map_app, map_repeat, map_to_N_byte_of_N by assumption.
  change (Byte.to_N Byte.x00) with 0%N.
  rewrite of_digits_zeros, (of_to_digits 256) by lia.
  rewrite length_app, repeat_length, length_map in Hlen.
  unfold web3.PUBLIC_KEY_LENGTH in *.
  destruct (Radix.to_digits 256 n) as [|d ds] eqn:HT.
  - simpl in *. rewrite Nat.add_0_r in Hlen. subst j. reflexivity.
  - remember (d :: ds) as T. 
    assert (Hmap : List.map byte_of_N T <> []) by (subst T; discriminate).
    destruct (List.map byte_of_N T) as [|x xs] eqn:Hx; [contradiction|].
    assert (Hlx : List.length (x :: xs) = List.length T)
      by (rewrite <- Hx; apply length_map).
    destruct (Nat.eqb_spec (List.length (x :: xs)) 32) as [H32|H32].
    + assert (j = 0)%nat by lia. subst j. reflexivity.
    + f_equal. f_equal. lia.
Qed.

Lemma mapM_all_Ok {A B} (f : A -> result B) l :
  (forall a, In a l -> exists b, f a = Ok b) -> exists bs, mapM f l = Ok bs.
Proof.
  induction l as [|a l IH]; intros H; simpl; [eauto|].
  destruct (H a (or_introl eq_refl)) as (b & ->).
  destruct IH as (bs & ->); [intros; apply H; now right|].
  simpl. eauto.
Qed.

(** C7. Let the answer to [/tokenList] be an array of M descriptors.
    Whenever [tokenList] returns, it returns M tokens, in order; each has
    for [address] the key parsed from the descriptor's [address], and its
    [name], [symbol], [chainId], [decimals] and [logoURL] are the
    descriptor's, untouched; when the raw address is a string, the key
    prints back as that very string.  And [tokenList] does return as soon
    as every descriptor has an address that parses. *)
Theorem tokenList_retypes_addresses_only :
  forall (L : Externals) (resp : Response) (this : SwapSDK)
         (descriptors : list value),
    ok resp = true -> json resp = Ok (Arr descriptors) ->
    let call := outcome (tokenList L (mock resp) this) in
    (forall r, call = Ok r ->
       List.length r = List.length descriptors
       /\ Forall2 (fun raw t =>
                     token_matches L raw t
                     /\ forall s, field raw "address" = Str s ->
                                  web3.toString (address t) = s)
            descriptors r)
    /\ ((forall raw, In raw descriptors ->
           exists x k, JS.get raw "address" = Ok x /\ new_PublicKey L x = Ok k) ->
        exists r, call = Ok r).
Proof.
  intros L resp this descriptors Hok Hjson call. unfold call.
  rewrite (tokenList_answered L resp this _ Hok Hjson). split.
  - intros r Hr. apply tokenList_tokens_match in Hr. simpl in Hr.
    split; [symmetry; eapply Forall2_length; eassumption|].
    eapply Forall2_weaken; [|exact Hr].
    intros raw t Hm. split; [assumption|].
    intros s Hs. destruct Hm as (Hp & _). unfold parses in Hp.
    rewrite Hs in Hp. simpl in Hp. now apply PublicKey_of_string_toString.
  - intros Hall. simpl. apply mapM_all_Ok. intros raw Hin.
    destruct (Hall raw Hin) as (x & k & Hx & Hk).
    unfold convertToken.
    assert (Hget : forall name, JS.get raw name = Ok (field raw name)).
    { intros name. unfold field. destruct raw; try reflexivity; discriminate. }
    rewrite !Hget. simpl. rewrite Hget in Hx. inversion Hx as [Hx'].
    rewrite Hx', Hk. simpl. eauto.
Qed.

Lemma tokenList_retypes_addresses_only_witness :
  exists t,
    outcome (tokenList Stub.lib (mock (success Stub.tokens)) Stub.sdk) = Ok [t]
    /\ web3.toString (address t) = "So11111111111111111111111111111111111111112"
    /\ name t = Str "Wrapped SOL".
Proof.
  destruct (tokenList_retypes_addresses_only Stub.lib (success Stub.tokens)
              Stub.sdk (elems Stub.tokens) eq_refl eq_refl) as [Hall _].
  destruct (outcome (tokenList Stub.lib (mock (success Stub.tokens)) Stub.sdk))
    as [r|e] eqn:Hr; [|vm_compute in Hr; discriminate].
  destruct (Hall r eq_refl) as [Hlen Hmatch].
  destruct r as [|t [|t' r']]; try discriminate Hlen.
  exists t. split; [reflexivity|].
  inversion Hmatch as [|? ? ? ? [(_ & Hname & _) Hprint] _]; subst.
  split; [|exact Hname].
  apply Hprint. reflexivity.
Defined.

(** ** Base64 text is not base58 text *)

Lemma digits_refuses s c :
  In c (list_ascii_of_string s) -> bs58.digit c = None -> bs58.digits s = None.
Proof.
  induction s as [|c' s IH]; simpl; [contradiction|].
  intros [->|Hin] Hc.
  - now rewrite Hc.
  - rewrite (IH Hin Hc). now destruct (bs58.digit c').
Qed.

Lemma decode_refuses s c :
  In c (list_ascii_of_string s) -> bs58.digit c = None ->
  bs58.decode s = Err (Error "Non-base58 character").
Proof.
  intros Hin Hc. unfold bs58.decode. now rewrite (digits_refuses s c Hin Hc).
Qed.

(** Base64 pads with "=" whenever the length is not a multiple of 3. *)
Lemma base64_padding q bs :
  List.length bs = 3 * q + 1 \/ List.length bs = 3 * q + 2 ->
  In "="%char (list_ascii_of_string (base64.encode bs)).
Proof.
  revert bs. induction q as [|q IH]; intros bs Hlen.
  - destruct bs as [|a [|b [|c rest]]]; simpl in Hlen; try lia; simpl; auto.
  - destruct bs as [|a [|b [|c rest]]]; simpl in Hlen; try lia.
    change (base64.encode (a :: b :: c :: rest))
      with (let n := ((Byte.to_N a * 256 + Byte.to_N b) * 256 + Byte.to_N c)%N in
            String (base64.symbol (n / 262144))
              (String (base64.symbol (n / 4096 mod 64))
                 (String (base64.symbol (n / 64 mod 64))
                    (String (base64.symbol (n mod 64)) (base64.encode rest))))).
    simpl. do 4 right. apply IH. lia.
Qed.

(** C1 (what the code does instead).  [swapTx] decodes each entry of
    [signers] with [base58.decode], not from base64: the base64 text of any
    64-byte secret key ends in "==", which is no base58 text, so such an
    entry is refused with "Non-base58 character" and the whole call throws. *)
Theorem swapTx_refuses_base64_signers :
  forall (L : Externals) (resp : Response) (this : SwapSDK)
         (params : SwapRequestParams) (data : value) (secrets : list value)
         (secretKey : bytes),
    ok resp = true -> json resp = Ok data ->
    JS.get data "signers" = Ok (Arr secrets) ->
    List.length secretKey = 64 ->
    In (Str (base64.encode secretKey)) secrets ->
    keypairOfSigner L (Str (base64.encode secretKey))
      = Err (Error "Non-base58 character")
    /\ exists e, outcome (swapTx L (mock resp) this params) = Err e.
Proof.
  intros L resp this params data secrets secretKey Hok Hjson Hsecrets Hlen Hin.
  assert (Hrefused : keypairOfSigner L (Str (base64.encode secretKey))
                     = Err (Error "Non-base58 character")).
  { unfold keypairOfSigner. simpl.
    rewrite (decode_refuses _ "="%char); [reflexivity | | reflexivity].
    apply (base64_padding 21). lia. }
  split; [exact Hrefused|].
  rewrite (swapTx_answered L resp this params data Hok Hjson).
  destruct (result_cases (swapTx_body L data)) as [[r Hr]|[e He]]; [|eauto].
  exfalso. unfold swapTx_body in Hr. steps Hr.
  match goal with
  | Hg : JS.get data "signers" = Ok ?v, Hm : JS.map ?v _ = Ok ?ks |- _ =>
      rewrite Hsecrets in Hg; inversion Hg; subst; clear Hg; simpl in Hm;
      destruct (mapM_Err_In _ _ _ _ Hin Hrefused) as (e' & He'); congruence
  end.
Qed.

Lemma swapTx_refuses_base64_signers_witness :
  base64.encode (repeat Byte.x00 64)
    = "AAAAAAAAAAAAAAAAAAAAAAAAAAAAAAAAAAAAAAAAAAAAAAAAAAAAAAAAAAAAAAAAAAAAAAAAAAAAAAAAAAAAAA=="
  /\ base64.decode (base64.encode (repeat Byte.x00 64)) = repeat Byte.x00 64
  /\ exists e,
       outcome (swapTx Stub.lib (mock (success Stub.base64Quote))
                  Stub.sdk Stub.params) = Err e.
Proof.
  split; [vm_compute; reflexivity|].
  split; [vm_compute; reflexivity|].
  eapply (swapTx_refuses_base64_signers Stub.lib _ Stub.sdk Stub.params
            Stub.base64Quote
            [Str (base64.encode (repeat Byte.x00 64))] (repeat Byte.x00 64));
    [reflexivity | reflexivity | reflexivity | reflexivity | now left].
Defined.

(** * Further properties *)

(** ** The exchange with the service, on any network *)

Section AnyNetwork.

Context (L : Externals) (fetch : Fetch) (this : SwapSDK).

Lemma callSwapEndpoint_exchange params :
  exists body,
    exchanges_once fetch (baseUrl this ++ "/bestSwapRoute")
      (post_json (JSON_stringify L body))
      (callSwapEndpoint L fetch this params)
    /\ field body "dexId" = Str (dexId params).
Proof.
  exists (Obj [ ("publicKey", Str (web3.toBase58 (publicKey params)));
                ("tokenA", Str (web3.toBase58 (tokenA params)));
                ("tokenB", Str (web3.toBase58 (tokenB params)));
                ("amountIn", Str (Number_toString L (amountIn params)));
                ("dexId", Str (dexId params));
                ("options", match options params with
                            | Some o => Obj [("reduceToTwoHops", Bool (reduceToTwoHops o))]
                            | None => Undefined
                            end) ]).
  split; [|reflexivity].
  unfold exchanges_once, callSwapEndpoint, do_fetch, await, post_json.
  match goal with |- match ?f with _ => _ end => destruct f as [resp|e] end;
    [|reflexivity].
  destruct (ok resp); simpl; [|reflexivity].
  unfold response_json, trace, outcome. simpl. auto.
Qed.

(** Reshaping adds nothing to the exchange. *)
Lemma exchange_then_settle {A B} url init (p : Promise A) (k : A -> result B) :
  exchanges_once fetch url init p ->
  exchanges_once fetch url init (await p (fun a => settle (k a))).
Proof.
  unfold exchanges_once. destruct (fetch url init) as [resp|e].
  - destruct (ok resp).
    + intros [Ht He]. destruct p as [t [a|e']]; unfold trace, outcome in *;
        simpl in *; subst.
      * split; [reflexivity|]. intros e Hj. specialize (He e Hj). discriminate.
      * split; [reflexivity|].
        intros e Hj. specialize (He e Hj). now inversion He.
    + intros ->. reflexivity.
  - intros ->. reflexivity.
Qed.

End AnyNetwork.

(** X1. On any network, each HTTP-backed method makes exactly one request
    and never a second one: [swapTx] and [swapIx] POST a JSON text to
    [baseUrl/bestSwapRoute], [tokenList] GETs [baseUrl/tokenList],
    [tokenPrice] GETs [baseUrl/tokenPrice/] followed by the base58 text of
    the address.  The body is read only when the status is a success; a
    failure of the transport, an error status and a body that does not
    parse each end the call with that very failure. *)
Theorem each_method_exchanges_once :
  forall (L : Externals) (fetch : Fetch) (this : SwapSDK)
         (params : SwapRequestParams) (tokenAddress : PublicKey),
    (exists body,
        exchanges_once fetch (baseUrl this ++ "/bestSwapRoute")
          (post_json (JSON_stringify L body)) (swapTx L fetch this params)
        /\ exchanges_once fetch (baseUrl this ++ "/bestSwapRoute")
             (post_json (JSON_stringify L body)) (swapIx L fetch this params))
    /\ exchanges_once fetch (baseUrl this ++ "/tokenList") None
         (tokenList L fetch this)
    /\ exchanges_once fetch
         (baseUrl this ++ "/tokenPrice/" ++ web3.toBase58 tokenAddress) None
         (tokenPrice L fetch this tokenAddress).
Proof.
  intros L fetch this params tokenAddress. split; [|split].
  - destruct (callSwapEndpoint_exchange L fetch this params) as (body & Hx & _).
    exists body. split; apply exchange_then_settle; exact Hx.
  - unfold exchanges_once, tokenList, do_fetch, await.
    destruct (fetch _ None) as [resp|e]; [|reflexivity].
    destruct (ok resp); simpl; [|reflexivity].
    unfold response_json, trace, outcome.
    destruct (json resp) as [data|e]; simpl.
    + split; [reflexivity | intros e Hj; discriminate].
    + split; [reflexivity | intros e' Hj; now inversion Hj].
  - unfold exchanges_once, tokenPrice, do_fetch, await.
    destruct (fetch _ None) as [resp|e]; [|reflexivity].
    destruct (ok resp); simpl; [|reflexivity].
    unfold response_json, trace, outcome.
    destruct (json resp) as [data|e]; simpl.
    + split; [reflexivity | intros e Hj; discriminate].
    + split; [reflexivity | intros e' Hj; now inversion Hj].
Qed.

(** X2. A failure of the transport comes out of every method as it went
    in, after the one request; so does the failure to parse the body of a
    successful answer, after the body was read.  Nothing is retried and
    nothing is wrapped. *)
Theorem failures_pass_through_unchanged :
  forall (L : Externals) (this : SwapSDK) (params : SwapRequestParams)
         (tokenAddress : PublicKey) (e : exn) (resp : Response),
    ok resp = true -> json resp = Err e ->
    (outcome (swapTx L (failing e) this params) = Err e
     /\ outcome (swapIx L (failing e) this params) = Err e
     /\ outcome (tokenList L (failing e) this) = Err e
     /\ outcome (tokenPrice L (failing e) this tokenAddress) = Err e)
    /\ (outcome (swapTx L (mock resp) this params) = Err e
        /\ outcome (swapIx L (mock resp) this params) = Err e
        /\ outcome (tokenList L (mock resp) this) = Err e
        /\ outcome (tokenPrice L (mock resp) this tokenAddress) = Err e).
Proof.
  intros L this params tokenAddress e resp Hok Hjson. split.
  - repeat split; reflexivity.
  - destruct (callSwapEndpoint_answered L resp this params Hok)
      as (url & init & Hc).
    repeat split.
    + unfold swapTx. rewrite Hc, Hjson. reflexivity.
    + unfold swapIx. rewrite Hc, Hjson. reflexivity.
    + unfold tokenList, do_fetch, mock, await, response_json.
      rewrite Hok, Hjson. reflexivity.
    + unfold tokenPrice, do_fetch, mock, await, response_json.
      rewrite Hok, Hjson. reflexivity.
Qed.

Lemma failures_pass_through_unchanged_witness :
  outcome (tokenList Stub.lib (failing (Error "Unexpected token")) Stub.sdk)
    = Err (Error "Unexpected token")
  /\ outcome (tokenList Stub.lib
                (mock {| ok := true; statusText := "OK";
                         json := Err (Error "Unexpected token") |})
                Stub.sdk) = Err (Error "Unexpected token").
Proof.
  pose proof (failures_pass_through_unchanged Stub.lib Stub.sdk Stub.params
                Stub.tokenA_key (Error "Unexpected token")
                {| ok := true; statusText := "OK";
                   json := Err (Error "Unexpected token") |}
                eq_refl eq_refl) as [(_ & _ & Ht & _) (_ & _ & Hm & _)].
  split; assumption.
Defined.

(** X3. The service cannot tell [swapTx] from [swapIx]: for the same
    parameters and on any network the two calls make the same request and
    read the body alike; they differ only in what they do with the answer. *)
Theorem swapTx_and_swapIx_send_the_same_request :
  forall (L : Externals) (fetch : Fetch) (this : SwapSDK)
         (params : SwapRequestParams),
    trace (swapTx L fetch this params) = trace (swapIx L fetch this params)
    /\ trace (swapTx L fetch this params)
       = trace (callSwapEndpoint L fetch this params).
Proof.
  intros L fetch this params. unfold swapTx, swapIx, await, settle, trace.
  destruct (callSwapEndpoint L fetch this params) as [t [data|e]]; simpl;
    rewrite ?app_nil_r; auto.
Qed.

(** ** More on numerals *)

Section NumeralBounds.

Variable b : N.
Hypothesis b_ge_2 : (2 <= b)%N.

Local Open Scope N_scope.

Lemma of_digits_bound ds :
  Forall (fun d => d < b) ds ->
  Radix.of_digits b ds < b ^ N.of_nat (List.length ds).
Proof.
  induction ds as [|d ds IH] using rev_ind; intros Hb;
    [unfold Radix.of_digits; simpl; lia|].
  apply Forall_app in Hb. destruct Hb as [Hds Hd].
  inversion Hd as [|? ? Hdb _]; subst. specialize (IH Hds).
  rewrite of_digits_snoc, length_app. simpl List.length.
  rewrite Nat.add_1_r, Nat2N.inj_succ, N.pow_succ_r'.
  assert (Hle : (Radix.of_digits b ds + 1) * b
                <= b ^ N.of_nat (List.length ds) * b)
    by (apply N.mul_le_mono_r; lia).
  lia.
Qed.

Lemma to_digits_length n m :
  n < b ^ N.of_nat m -> (List.length (Radix.to_digits b n) <= m)%nat.
Proof.
  revert n. induction m as [|m IH]; intros n Hn.
  - simpl in Hn. assert (n = 0) by lia. subst. simpl. lia.
  - destruct (N.eq_dec n 0) as [->|Hn0]; [simpl; lia|].
    rewrite (to_digits_step b b_ge_2 n Hn0), length_app. simpl.
    rewrite Nat2N.inj_succ, N.pow_succ_r' in Hn.
    assert (n / b < b ^ N.of_nat m)
      by (apply N.Div0.div_lt_upper_bound; lia).
    specialize (IH _ H). lia.
Qed.

End NumeralBounds.

Lemma byte_of_to_N x : byte_of_N (Byte.to_N x) = x.
Proof. unfold byte_of_N. now rewrite Byte.of_to_N. Qed.

Lemma map_byte_of_to_N bs : List.map byte_of_N (List.map Byte.to_N bs) = bs.
Proof.
  induction bs as [|x bs IH]; simpl; [reflexivity|].
  now rewrite byte_of_to_N, IH.
Qed.

Lemma to_N_bounded_all bs : Forall (fun d => (d < 256)%N) (List.map Byte.to_N bs).
Proof.
  induction bs as [|x bs IH]; simpl; constructor; [|assumption].
  pose proof (Byte.to_N_bounded x). lia.
Qed.

Lemma to_N_head bs :
  (forall x, hd_error bs = Some x -> x <> Byte.x00) ->
  Radix.canonical (List.map Byte.to_N bs).
Proof.
  intros Hhd. destruct bs as [|x bs]; [discriminate|].
  unfold Radix.canonical. simpl. intros H. inversion H as [H0].
  apply (Hhd x eq_refl). rewrite <- (byte_of_to_N x), H0. reflexivity.
Qed.

Lemma symbol_digit d : (d < bs58.BASE)%N -> bs58.digit (bs58.symbol d) = Some d.
Proof.
  intros Hd. rewrite <- (N2Nat.id d).
  assert (Hn : (N.to_nat d < 58)%nat) by (unfold bs58.BASE in Hd; lia).
  generalize dependent (N.to_nat d). clear. intros n Hn.
  do 58 (destruct n as [|n]; [reflexivity|]). lia.
Qed.

Lemma digits_of_symbols ds :
  Forall (fun d => (d < bs58.BASE)%N) ds ->
  bs58.digits (string_of_list_ascii (List.map bs58.symbol ds)) = Some ds.
Proof.
  induction 1 as [|d ds Hd _ IH]; simpl; [reflexivity|].
  now rewrite (symbol_digit d Hd), IH.
Qed.

Lemma digits_length s ds :
  bs58.digits s = Some ds -> List.length ds = String.length s.
Proof.
  revert ds. induction s as [|c s IH]; intros ds; simpl.
  - intros H. now inversion H.
  - destruct (bs58.digit c); [|discriminate].
    destruct (bs58.digits s) as [ds'|]; [|discriminate].
    intros H. inversion H; subst. simpl. now rewrite (IH ds' eq_refl).
Qed.

(** Encoding then decoding gives the bytes back. *)
Lemma bs58_decode_encode bs : bs58.decode (bs58.encode bs) = Ok bs.
Proof.
  unfold bs58.encode.
  destruct (Radix.leading is_x00 bs) as [k rest] eqn:Hl.
  destruct (leading_split _ Byte.x00 _ _ _ is_x00_spec Hl) as [-> Hhd].
  set (n := Radix.of_digits 256 (List.map Byte.to_N rest)).
  pose proof (to_digits_bounded bs58.BASE ltac:(unfold bs58.BASE; lia) n) as Hb.
  pose proof (to_digits_canonical bs58.BASE ltac:(unfold bs58.BASE; lia) n) as Hc.
  unfold bs58.decode.
  rewrite <- map_repeat_symbol, <- map_app, digits_of_symbols.
  2:{ apply Forall_app. split; [|assumption].
      clear. induction k; simpl; constructor; [unfold bs58.BASE; lia | assumption]. }
  rewrite (leading_repeat (N.eqb 0) 0%N k _ N_eqb_0_spec).
  2:{ intros a Ha H0. subst. now apply Hc. }
  rewrite (of_to_digits bs58.BASE) by (unfold bs58.BASE; lia).
  unfold n. rewrite (to_of_digits 256) by
    (lia || apply to_N_head, Hhd || apply to_N_bounded_all).
  now rewrite map_byte_of_to_N.
Qed.

(** X4. [bs58], which the SDK hands to its users as [base58], converts
    both ways without loss: every byte string comes back from its text,
    and every text that decodes is the text of its bytes.  There is one
    text per byte string. *)
Theorem base58_round_trips :
  (forall bs, bs58.decode (bs58.encode bs) = Ok bs)
  /\ (forall s bs, bs58.decode s = Ok bs -> bs58.encode bs = s)
  /\ (forall s s' bs, bs58.decode s = Ok bs -> bs58.decode s' = Ok bs -> s = s').
Proof.
  split; [exact bs58_decode_encode|]. split; [exact bs58_encode_decode|].
  intros s s' bs Hs Hs'.
  rewrite <- (bs58_encode_decode s bs Hs). now apply bs58_encode_decode.
Qed.

Lemma base58_round_trips_witness :
  bs58.decode (bs58.encode [Byte.x00; Byte.x61]) = Ok [Byte.x00; Byte.x61]
  /\ bs58.encode [Byte.x00; Byte.x61] = "12g".
Proof.
  destruct base58_round_trips as (Hde & Hed & _).
  split; [apply Hde|]. apply Hed. vm_compute. reflexivity.
Defined.

Lemma base58_decode_bounds_aux s bs :
  bs58.decode s = Ok bs ->
  (List.length bs <= String.length s)%nat
  /\ Forall (fun c => bs58.digit c <> None) (list_ascii_of_string s).
Proof.
  intros Hdec. split.
  - destruct (decode_shape s bs Hdec) as (k & n & rest & -> & Hds & _ & ->).
    destruct (digits_symbols _ _ Hds) as [_ Hlt].
    apply Forall_app in Hlt. destruct Hlt as [_ Hlt].
    rewrite <- (digits_length _ _ Hds), !length_app, !repeat_length, length_map.
    apply Nat.add_le_mono_l.
    apply (to_digits_length 256 ltac:(lia)).
    eapply N.lt_le_trans; [apply (of_digits_bound bs58.BASE);
                           [unfold bs58.BASE; lia | exact Hlt]|].
    apply N.pow_le_mono_l. unfold bs58.BASE. lia.
  - apply Forall_forall. intros c Hin Hnone.
    rewrite (decode_refuses s c Hin Hnone) in Hdec. discriminate.
Qed.

(** X5. A text never decodes to more bytes than it has characters, and any
    character outside the alphabet makes [decode] throw. *)
Theorem base58_decode_bounds :
  forall s,
    (forall bs, bs58.decode s = Ok bs ->
                (List.length bs <= String.length s)%nat
                /\ Forall (fun c => bs58.digit c <> None) (list_ascii_of_string s))
    /\ (forall c, In c (list_ascii_of_string s) -> bs58.digit c = None ->
                  bs58.decode s = Err (Error "Non-base58 character")).
Proof.
  intros s. split; [apply base58_decode_bounds_aux | intros c; apply decode_refuses].
Qed.

Lemma base58_decode_bounds_witness :
  bs58.decode "2g=" = Err (Error "Non-base58 character")
  /\ (List.length [Byte.x61] <= String.length "2g")%nat.
Proof.
  split.
  - apply (proj2 (base58_decode_bounds "2g=") "="%char);
      [simpl; auto | reflexivity].
  - apply (proj1 (base58_decode_bounds "2g") [Byte.x61]).
    vm_compute. reflexivity.
Defined.

(** ** More on keys *)

Lemma pow_256_32 : (2 ^ 256)%Z = Z.of_N (256 ^ N.of_nat 32).
Proof. reflexivity. Qed.

(** What the constructor did when it accepted a text. *)
Lemma PublicKey_of_string_inv s k :
  web3.PublicKey_of_string s = Ok k ->
  exists decoded,
    bs58.decode s = Ok decoded
    /\ List.length decoded = 32
    /\ web3._bn k = web3.bn_of_bytes decoded.
Proof.
  unfold web3.PublicKey_of_string.
  destruct (bs58.decode s) as [decoded|] eqn:Hdec; simpl; [|discriminate].
  destruct (Nat.eqb_spec (List.length decoded) web3.PUBLIC_KEY_LENGTH)
    as [Hlen|]; simpl; [|discriminate].
  destruct (Nat.ltb _ _); [discriminate|].
  intros H. inversion H; subst. exists decoded. auto.
Qed.

Lemma bn_of_bytes_valid bs :
  List.length bs = 32 -> valid_key {| web3._bn := web3.bn_of_bytes bs |}.
Proof.
  intros Hlen. unfold valid_key, web3.bn_of_bytes. cbn [web3._bn].
  split; [apply N2Z.is_nonneg|].
  rewrite pow_256_32. apply N2Z.inj_lt.
  rewrite <- Hlen, <- (length_map Byte.to_N).
  apply (of_digits_bound 256); [lia | apply to_N_bounded_all].
Qed.

(** The 32 bytes of a valid key: zeros, then the numeral of the number. *)
Lemma toBytes_valid k :
  valid_key k ->
  let T := Radix.to_digits 256 (Z.abs_N (web3._bn k)) in
  web3.toBytes k = repeat Byte.x00 (32 - List.length T) ++ List.map byte_of_N T
  /\ (List.length T <= 32)%nat.
Proof.
  intros [Hlo Hhi] T.
  assert (HT : (List.length T <= 32)%nat).
  { apply (to_digits_length 256 ltac:(lia)).
    apply N2Z.inj_lt. rewrite N2Z.inj_abs_N, Z.abs_eq, <- pow_256_32; assumption. }
  split; [|exact HT].
  unfold web3.toBytes, web3.bn_toArray, web3.PUBLIC_KEY_LENGTH. fold T.
  destruct T as [|d ds] eqn:HTeq; [reflexivity|].
  rewrite <- HTeq in *.
  assert (Hne : List.map byte_of_N T <> []) by (rewrite HTeq; discriminate).
  destruct (List.map byte_of_N T) as [|x xs] eqn:Hx; [contradiction|].
  assert (Hlx : List.length (x :: xs) = List.length T)
    by (rewrite <- Hx; apply length_map).
  destruct (Nat.eqb_spec (List.length (x :: xs)) 32) as [H32|H32].
  - rewrite <- Hlx, H32. reflexivity.
  - now rewrite Hlx.
Qed.

Lemma toBytes_length k : valid_key k -> List.length (web3.toBytes k) = 32.
Proof.
  intros Hk. destruct (toBytes_valid k Hk) as [-> HT].
  rewrite length_app, repeat_length, length_map. lia.
Qed.

Lemma bn_of_toBytes k : valid_key k -> web3.bn_of_bytes (web3.toBytes k) = web3._bn k.
Proof.
  intros Hk. destruct (toBytes_valid k Hk) as [-> _].
  unfold web3.bn_of_bytes.
  rewrite map_app, map_repeat, map_to_N_byte_of_N
    by (apply (to_digits_bounded 256); lia).
  change (Byte.to_N Byte.x00) with 0%N.
  rewrite of_digits_zeros, (of_to_digits 256) by lia.
  rewrite N2Z.inj_abs_N. apply Z.abs_eq. apply Hk.
Qed.

Lemma key_round_trip k :
  valid_key k -> web3.PublicKey_of_string (web3.toBase58 k) = Ok k.
Proof.
  intros Hk. unfold web3.PublicKey_of_string, web3.toBase58.
  rewrite bs58_decode_encode. simpl.
  rewrite (toBytes_length k Hk). simpl.
  rewrite (bn_of_toBytes k Hk).
  destruct (toBytes_valid k Hk) as [_ HT].
  unfold web3.byteLength, web3.PUBLIC_KEY_LENGTH.
  destruct (Nat.ltb_spec 32
              (List.length (Radix.to_digits 256 (Z.abs_N (web3._bn k)))))
    as [Hgt|_]; [lia|].
  now destruct k.
Qed.

(** X6. A key that the constructor builds from text is a number below
    2^256, and its 32 bytes are exactly the bytes the text decodes to; the
    text has at least 32 characters; and two texts that give the same key
    are the same text. *)
Theorem keys_from_text_are_32_bytes :
  forall s k,
    web3.PublicKey_of_string s = Ok k ->
    valid_key k
    /\ bs58.decode s = Ok (web3.toBytes k)
    /\ List.length (web3.toBytes k) = 32
    /\ (32 <= String.length s)%nat
    /\ forall s', web3.PublicKey_of_string s' = Ok k -> s' = s.
Proof.
  intros s k Hk.
  destruct (PublicKey_of_string_inv s k Hk) as (decoded & Hdec & Hlen & Hbn).
  assert (Hvalid : valid_key k).
  { destruct k as [bn]. simpl in Hbn. subst bn. now apply bn_of_bytes_valid. }
  assert (Hbytes : web3.toBytes k = decoded).
  { pose proof (PublicKey_of_string_toString s k Hk) as Hs.
    unfold web3.toString, web3.toBase58 in Hs.
    pose proof (bs58_decode_encode (web3.toBytes k)) as Hround.
    rewrite Hs, Hdec in Hround. now inversion Hround. }
  split; [exact Hvalid|]. split; [now rewrite Hbytes|].
  split; [now rewrite Hbytes|]. split.
  - rewrite <- Hlen.
    apply (proj1 (base58_decode_bounds_aux s decoded Hdec)).
  - intros s' Hk'.
    rewrite <- (PublicKey_of_string_toString s' k Hk').
    now apply PublicKey_of_string_toString.
Qed.

Lemma keys_from_text_are_32_bytes_witness :
  valid_key (Stub.key "So11111111111111111111111111111111111111112")
  /\ List.length
       (web3.toBytes (Stub.key "So11111111111111111111111111111111111111112")) = 32.
Proof.
  destruct (keys_from_text_are_32_bytes
              "So11111111111111111111111111111111111111112"
              (Stub.key "So11111111111111111111111111111111111111112")
              ltac:(vm_compute; reflexivity)) as (Hv & _ & Hl & _).
  split; assumption.
Defined.

(** X7. A text of fewer than 32 characters, the empty text included, is
    never taken for a key: the constructor throws, either because a
    character is not base58 or because the bytes are not 32. *)
Theorem short_text_is_no_key :
  forall (L : Externals) (s : string),
    (String.length s < 32)%nat ->
    new_PublicKey L (Str s) = Err (Error "Invalid public key input")
    \/ new_PublicKey L (Str s) = Err (Error "Non-base58 character").
Proof.
  intros L s Hs. simpl. unfold web3.PublicKey_of_string.
  destruct (bs58.decode s) as [decoded|e] eqn:Hdec; simpl.
  - left. destruct (base58_decode_bounds_aux s decoded Hdec) as [Hlen _].
    destruct (Nat.eqb_spec (List.length decoded) web3.PUBLIC_KEY_LENGTH)
      as [H32|_]; [unfold web3.PUBLIC_KEY_LENGTH in H32; lia | reflexivity].
  - right. unfold bs58.decode in Hdec.
    destruct (bs58.digits s) as [l|];
      [destruct (Radix.leading (N.eqb 0) l); discriminate | now inversion Hdec].
Qed.

Lemma short_text_is_no_key_witness :
  new_PublicKey Stub.lib (Str "") = Err (Error "Invalid public key input")
  /\ new_PublicKey Stub.lib (Str "UserPublicKeyInBase58")
     = Err (Error "Non-base58 character").
Proof.
  split.
  - destruct (short_text_is_no_key Stub.lib "" ltac:(simpl; lia)) as [H|H];
      [exact H | exfalso; vm_compute in H; congruence].
  - destruct (short_text_is_no_key Stub.lib "UserPublicKeyInBase58"
                ltac:(simpl; lia)) as [H|H];
      [exfalso; vm_compute in H; congruence | exact H].
Defined.

(** X8. Printing a key and reading the text back gives the key: for every
    key below 2^256, [new PublicKey(k.toBase58())] is [k].  Hence two such
    keys with the same text are the same key. *)
Theorem key_prints_and_reads_back :
  forall k,
    valid_key k ->
    web3.PublicKey_of_string (web3.toBase58 k) = Ok k
    /\ forall k', valid_key k' -> web3.toBase58 k' = web3.toBase58 k -> k' = k.
Proof.
  intros k Hk. split; [now apply key_round_trip|].
  intros k' Hk' Heq.
  pose proof (key_round_trip k' Hk') as H'. rewrite Heq in H'.
  rewrite (key_round_trip k Hk) in H'. now inversion H'.
Qed.

Lemma key_prints_and_reads_back_witness :
  web3.PublicKey_of_string (web3.toBase58 {| web3._bn := 5 |})
    = Ok {| web3._bn := 5 |}.
Proof.
  apply (key_prints_and_reads_back {| web3._bn := 5 |}).
  unfold valid_key. simpl. lia.
Defined.

(** ** What is sent *)

Lemma append_cancel_l (a b c : string) : (a ++ b = a ++ c)%string -> b = c.
Proof. induction a as [|x a IH]; simpl; intros H; [exact H|]. inversion H. auto. Qed.

(** X9. The quote request carries the caller's keys in a form the service
    can read back: the body that [swapTx] and [swapIx] serialise holds
    [publicKey], [tokenA] and [tokenB] as texts that the key constructor
    turns back into the very keys of the parameters; [dexId] goes out as it
    came in, unchecked, the amount as the text of the number, and
    [options] is left [undefined] when the caller gave none. *)
Theorem quote_request_names_the_callers_keys :
  forall (L : Externals) (fetch : Fetch) (this : SwapSDK)
         (params : SwapRequestParams),
    valid_key (publicKey params) -> valid_key (tokenA params) ->
    valid_key (tokenB params) ->
    exists body,
      hd_error (trace (swapTx L fetch this params))
        = Some (EvFetch (baseUrl this ++ "/bestSwapRoute")
                  (post_json (JSON_stringify L body)))
      /\ hd_error (trace (swapIx L fetch this params))
         = Some (EvFetch (baseUrl this ++ "/bestSwapRoute")
                   (post_json (JSON_stringify L body)))
      /\ new_PublicKey L (field body "publicKey") = Ok (publicKey params)
      /\ new_PublicKey L (field body "tokenA") = Ok (tokenA params)
      /\ new_PublicKey L (field body "tokenB") = Ok (tokenB params)
      /\ field body "dexId" = Str (dexId params)
      /\ field body "amountIn" = Str (Number_toString L (amountIn params))
      /\ (options params = None -> field body "options" = Undefined)
      /\ (forall o, options params = Some o ->
            field body "options" = Obj [("reduceToTwoHops", Bool (reduceToTwoHops o))]).
Proof.
  intros L fetch this params Hpk Ha Hb.
  exists (Obj [ ("publicKey", Str (web3.toBase58 (publicKey params)));
                ("tokenA", Str (web3.toBase58 (tokenA params)));
                ("tokenB", Str (web3.toBase58 (tokenB params)));
                ("amountIn", Str (Number_toString L (amountIn params)));
                ("dexId", Str (dexId params));
                ("options", match options params with
                            | Some o => Obj [("reduceToTwoHops", Bool (reduceToTwoHops o))]
                            | None => Undefined
                            end) ]).
  assert (Hhead : forall A (k : value -> result A),
             hd_error (trace (await (callSwapEndpoint L fetch this params)
                                (fun data => settle (k data))))
             = hd_error (trace (callSwapEndpoint L fetch this params))).
  { intros A k. unfold await, settle, trace.
    destruct (callSwapEndpoint L fetch this params) as [t [d|e]]; simpl;
      rewrite ?app_nil_r; reflexivity. }
  assert (Hcall : hd_error (trace (callSwapEndpoint L fetch this params))
                  = Some (EvFetch (baseUrl this ++ "/bestSwapRoute")
                            (post_json (JSON_stringify L
                               (Obj [ ("publicKey", Str (web3.toBase58 (publicKey params)));
                                      ("tokenA", Str (web3.toBase58 (tokenA params)));
                                      ("tokenB", Str (web3.toBase58 (tokenB params)));
                                      ("amountIn", Str (Number_toString L (amountIn params)));
                                      ("dexId", Str (dexId params));
                                      ("options", match options params with
                                                  | Some o => Obj [("reduceToTwoHops", Bool (reduceToTwoHops o))]
                                                  | None => Undefined
                                                  end) ]))))).
  { unfold callSwapEndpoint, do_fetch, await, post_json, trace.
    match goal with |- context [fetch ?u ?i] => destruct (fetch u i) as [resp|e] end;
      [|reflexivity].
    destruct (ok resp); reflexivity. }
  split; [unfold swapTx; now rewrite Hhead|].
  split; [unfold swapIx; now rewrite Hhead|].
  unfold field. cbn [JS.get JS.lookup String.eqb Ascii.eqb Bool.eqb].
  split; [simpl; now apply key_round_trip|].
  split; [simpl; now apply key_round_trip|].
  split; [simpl; now apply key_round_trip|].
  split; [reflexivity|]. split; [reflexivity|].
  split; [now intros ->|]. now intros o ->.
Qed.

Lemma quote_request_names_the_callers_keys_witness :
  valid_key (publicKey Stub.params) /\ valid_key (tokenA Stub.params)
  /\ valid_key (tokenB Stub.params)
  /\ exists body,
       hd_error (trace (swapTx Stub.lib (mock Stub.notFound) Stub.sdk Stub.params))
       = Some (EvFetch "http://localhost:3333/bestSwapRoute"
                 (post_json (JSON_stringify Stub.lib body)))
       /\ new_PublicKey Stub.lib (field body "tokenA") = Ok (tokenA Stub.params).
Proof.
  assert (Hv : forall s k, web3.PublicKey_of_string s = Ok k -> valid_key k)
    by (intros s k H; apply (PublicKey_of_string_inv s k) in H;
        destruct H as (d & _ & Hl & Hbn); destruct k as [bn]; simpl in Hbn;
        subst bn; now apply bn_of_bytes_valid).
  assert (H1 : valid_key (publicKey Stub.params))
    by (apply (Hv "8PE7zNHVmn1zmFqNxPHpgjriDd8MNfTHWadPKenYDQX2");
        vm_compute; reflexivity).
  assert (H2 : valid_key (tokenA Stub.params))
    by (apply (Hv "GU7NS9xCwgNPiAdJ69iusFrRfawjDDPjeMBovhV1d4kn");
        vm_compute; reflexivity).
  assert (H3 : valid_key (tokenB Stub.params))
    by (apply (Hv "CEBP3CqAbW4zdZA57H2wfaSG1QNdzQ72GiQEbQXyW9Tm");
        vm_compute; reflexivity).
  repeat (split; [assumption|]).
  destruct (quote_request_names_the_callers_keys Stub.lib (mock Stub.notFound)
              Stub.sdk Stub.params H1 H2 H3)
    as (body & Htx & _ & _ & HA & _).
  exists body. split; assumption.
Defined.

(** X10. The price request names its token without ambiguity: [tokenPrice]
    GETs [baseUrl/tokenPrice/] followed by a text that reads back as the
    address, and two different addresses never give the same URL. *)
Theorem price_request_names_the_token :
  forall (L : Externals) (fetch : Fetch) (this : SwapSDK)
         (tokenAddress : PublicKey),
    valid_key tokenAddress ->
    exists text,
      hd_error (trace (tokenPrice L fetch this tokenAddress))
        = Some (EvFetch (baseUrl this ++ "/tokenPrice/" ++ text) None)
      /\ web3.PublicKey_of_string text = Ok tokenAddress
      /\ forall other text',
           valid_key other ->
           hd_error (trace (tokenPrice L fetch this other))
             = Some (EvFetch (baseUrl this ++ "/tokenPrice/" ++ text') None) ->
           (baseUrl this ++ "/tokenPrice/" ++ text'
            = baseUrl this ++ "/tokenPrice/" ++ text)%string ->
           other = tokenAddress.
Proof.
  intros L fetch this tokenAddress Hk.
  assert (Hhead : forall k,
             hd_error (trace (tokenPrice L fetch this k))
             = Some (EvFetch (baseUrl this ++ "/tokenPrice/" ++ web3.toBase58 k) None)).
  { intros k. unfold tokenPrice, do_fetch, await, trace.
    destruct (fetch _ None) as [resp|e]; [|reflexivity].
    destruct (ok resp); [|reflexivity].
    unfold response_json. destruct (json resp); reflexivity. }
  exists (web3.toBase58 tokenAddress).
  split; [apply Hhead|]. split; [now apply key_round_trip|].
  intros other text' Hother Hreq Hurl.
  rewrite Hhead in Hreq. inversion Hreq as [Hu].
  apply append_cancel_l, (append_cancel_l "/tokenPrice/") in Hu.
  apply append_cancel_l, (append_cancel_l "/tokenPrice/") in Hurl.
  rewrite <- Hu in Hurl.
  pose proof (key_round_trip other Hother) as Ho.
  rewrite Hurl, (key_round_trip tokenAddress Hk) in Ho. now inversion Ho.
Qed.

Lemma price_request_names_the_token_witness :
  exists text,
    hd_error (trace (tokenPrice Stub.lib (mock Stub.notFound) Stub.sdk
                       {| web3._bn := 5 |}))
      = Some (EvFetch ("http://localhost:3333" ++ "/tokenPrice/" ++ text) None)
    /\ web3.PublicKey_of_string text = Ok {| web3._bn := 5 |}.
Proof.
  destruct (price_request_names_the_token Stub.lib (mock Stub.notFound)
              Stub.sdk {| web3._bn := 5 |})
    as (text & Hreq & Hback & _).
  - unfold valid_key. simpl. lia.
  - exists text. split; assumption.
Defined.

(** ** What each view of a quote reads *)

(** X11. [swapTx] never looks at [inXs], and [swapIx] never looks at
    [transaction]: whatever value the answer holds there, well formed or
    not, the outcome of the call is the one it has without it. *)
Theorem each_view_ignores_the_other_payload :
  forall (L : Externals) (resp respX respT : Response) (this : SwapSDK)
         (params : SwapRequestParams) (props : list (string * value))
         (v : value),
    ok resp = true -> json resp = Ok (Obj props) ->
    ok respX = true -> json respX = Ok (Obj (("inXs", v) :: props)) ->
    ok respT = true -> json respT = Ok (Obj (("transaction", v) :: props)) ->
    outcome (swapTx L (mock respX) this params)
      = outcome (swapTx L (mock resp) this params)
    /\ outcome (swapIx L (mock respT) this params)
       = outcome (swapIx L (mock resp) this params).
Proof.
  intros L resp respX respT this params props v Hok Hj HokX HjX HokT HjT.
  rewrite (swapTx_answered L respX this params _ HokX HjX).
  rewrite (swapTx_answered L resp this params _ Hok Hj).
  rewrite (swapIx_answered L respT this params _ HokT HjT).
  rewrite (swapIx_answered L resp this params _ Hok Hj).
  split; reflexivity.
Qed.

Lemma each_view_ignores_the_other_payload_witness :
  outcome (swapTx Stub.lib
             (mock (success (Obj (("inXs", Str "not a list") :: Stub.sparseProps))))
             Stub.sdk Stub.params)
    = outcome (swapTx Stub.lib (mock (success (Obj Stub.sparseProps)))
                 Stub.sdk Stub.params)
  /\ is_ok (outcome (swapTx Stub.lib (mock (success (Obj Stub.sparseProps)))
                       Stub.sdk Stub.params)) = true.
Proof.
  split; [|reflexivity].
  apply (each_view_ignores_the_other_payload Stub.lib
           (success (Obj Stub.sparseProps))
           (success (Obj (("inXs", Str "not a list") :: Stub.sparseProps)))
           (success (Obj (("transaction", Str "not a list") :: Stub.sparseProps)))
           Stub.sdk Stub.params Stub.sparseProps (Str "not a list"));
    reflexivity.
Defined.

(** X12. The two views of one answer agree: when [swapTx] and [swapIx]
    both return on the same answer, they report the same amounts, the same
    route plan and the same lookup accounts. *)
Theorem both_views_agree_on_the_quote :
  forall (L : Externals) (resp : Response) (this : SwapSDK)
         (params : SwapRequestParams) (data : value)
         (r : SwapTxResult L) (r' : SwapIxResult),
    ok resp = true -> json resp = Ok data ->
    outcome (swapTx L (mock resp) this params) = Ok r ->
    outcome (swapIx L (mock resp) this params) = Ok r' ->
    amountOut r = ix_amountOut r'
    /\ amountOutUi r = ix_amountOutUi r'
    /\ routePlan r = ix_routePlan r'
    /\ lookupAccounts r = ix_lookupAccounts r'.
Proof.
  intros L resp this params data r r' Hok Hjson Hr Hr'.
  rewrite (swapTx_answered L resp this params data Hok Hjson) in Hr.
  rewrite (swapIx_answered L resp this params data Hok Hjson) in Hr'.
  unfold swapTx_body in Hr. unfold swapIx_body in Hr'.
  steps Hr. steps Hr'. simpl.
  repeat match goal with
         | H1 : ?f = Ok ?a, H2 : ?f = Ok ?b |- _ =>
             rewrite H1 in H2; inversion H2; subst; clear H2
         end.
  repeat split; congruence.
Qed.

Lemma both_views_agree_on_the_quote_witness :
  exists r r',
    outcome (swapTx Stub.lib (mock (success Stub.scenario)) Stub.sdk Stub.params) = Ok r
    /\ outcome (swapIx Stub.lib (mock (success Stub.scenario)) Stub.sdk Stub.params) = Ok r'
    /\ routePlan r = ix_routePlan r'.
Proof.
  destruct (outcome (swapTx Stub.lib (mock (success Stub.scenario)) Stub.sdk Stub.params))
    as [r|e] eqn:Hr; [|vm_compute in Hr; discriminate].
  destruct (outcome (swapIx Stub.lib (mock (success Stub.scenario)) Stub.sdk Stub.params))
    as [r'|e] eqn:Hr'; [|vm_compute in Hr'; discriminate].
  exists r, r'. split; [reflexivity|]. split; [reflexivity|].
  apply (both_views_agree_on_the_quote Stub.lib (success Stub.scenario)
           Stub.sdk Stub.params Stub.scenario r r' eq_refl eq_refl Hr Hr').
Defined.

(** X13. [swapIx] hands [signers] over without looking inside: whatever
    the answer holds there (texts that are not base58, a number, nothing at
    all), the call ends as it does for any other value, and when it
    returns the result differs only in its [signers], which is that value
    itself. *)
Theorem swapIx_passes_signers_untouched :
  forall (L : Externals) (resp resp' : Response) (this : SwapSDK)
         (params : SwapRequestParams) (props : list (string * value))
         (v v' : value),
    ok resp = true -> json resp = Ok (Obj (("signers", v) :: props)) ->
    ok resp' = true -> json resp' = Ok (Obj (("signers", v') :: props)) ->
    match outcome (swapIx L (mock resp) this params),
          outcome (swapIx L (mock resp') this params) with
    | Ok r, Ok r' =>
        ix_signers r = v /\ ix_signers r' = v'
        /\ instructionGroups r' = instructionGroups r
        /\ ix_amountOut r' = ix_amountOut r
        /\ ix_amountOutUi r' = ix_amountOutUi r
        /\ ix_routePlan r' = ix_routePlan r
        /\ ix_lookupAccounts r' = ix_lookupAccounts r
    | Err e, Err e' => e = e'
    | _, _ => False
    end.
Proof.
  intros L resp resp' this params props v v' Hok Hj Hok' Hj'.
  rewrite (swapIx_answered L resp this params _ Hok Hj).
  rewrite (swapIx_answered L resp' this params _ Hok' Hj').
  unfold swapIx_body, convertLookupAccounts, convertRoutePlan. simpl.
  repeat match goal with
         | |- context [rbind ?x _] =>
             lazymatch x with
             | rbind _ _ => fail
             | _ => destruct x; simpl; [|reflexivity]
             end
         end.
  repeat split.
Qed.

Lemma swapIx_passes_signers_untouched_witness :
  exists r,
    outcome (swapIx Stub.lib
               (mock (success (Obj (("signers", Num 7) :: Stub.sparseProps))))
               Stub.sdk Stub.params) = Ok r
    /\ ix_signers r = Num 7.
Proof.
  pose proof (swapIx_passes_signers_untouched Stub.lib
                (success (Obj (("signers", Num 7) :: Stub.sparseProps)))
                (success (Obj (("signers", Undefined) :: Stub.sparseProps)))
                Stub.sdk Stub.params Stub.sparseProps (Num 7) Undefined
                eq_refl eq_refl eq_refl eq_refl) as H.
  vm_compute in H. destruct H as (H7 & _).
  eexists. split; [vm_compute; reflexivity | vm_compute; exact H7].
Defined.

(** ** Answers of an unexpected shape *)

(** X14. [tokenList] takes the body for an array without checking: the
    empty array gives the empty list, and any body that is not an array
    (an object wrapping the list, [null], a text) makes the call throw a
    type error. *)
Theorem tokenList_needs_an_array :
  forall (L : Externals) (resp : Response) (this : SwapSDK) (data : value),
    ok resp = true -> json resp = Ok data ->
    (data = Arr [] -> outcome (tokenList L (mock resp) this) = Ok [])
    /\ ((forall l, data <> Arr l) ->
        outcome (tokenList L (mock resp) this) = Err TypeError)
    /\ (forall r, outcome (tokenList L (mock resp) this) = Ok r ->
          exists l, data = Arr l /\ List.length r = List.length l).
Proof.
  intros L resp this data Hok Hjson.
  rewrite (tokenList_answered L resp this data Hok Hjson).
  split; [intros ->; reflexivity|]. split.
  - intros Hnot. destruct data as [| | | | |l|]; try reflexivity.
    now destruct (Hnot l).
  - intros r Hr. apply JS_map_Forall2 in Hr. destruct Hr as (l & -> & HF).
    exists l. split; [reflexivity|]. symmetry. eapply Forall2_length; eassumption.
Qed.

Lemma tokenList_needs_an_array_witness :
  outcome (tokenList Stub.lib (mock (success (Obj [("tokens", Stub.tokens)])))
             Stub.sdk) = Err TypeError
  /\ outcome (tokenList Stub.lib (mock (success (Arr []))) Stub.sdk) = Ok [].
Proof.
  split.
  - apply (tokenList_needs_an_array Stub.lib
             (success (Obj [("tokens", Stub.tokens)])) Stub.sdk
             (Obj [("tokens", Stub.tokens)]) eq_refl eq_refl).
    intros l. discriminate.
  - now apply (tokenList_needs_an_array Stub.lib (success (Arr [])) Stub.sdk
                 (Arr []) eq_refl eq_refl).
Defined.

(** X15. [tokenPrice] does not check the price: a body without [price]
    gives NaN, [null] gives 0, a number is returned as it is and a boolean
    as 1 or 0, all without an error; only a body that is [null] makes the
    call throw. *)
Theorem tokenPrice_does_not_validate :
  forall (L : Externals) (resp : Response) (this : SwapSDK)
         (tokenAddress : PublicKey) (data : value),
    ok resp = true -> json resp = Ok data ->
    let call := outcome (tokenPrice L (mock resp) this tokenAddress) in
    (JS.get data "price" = Ok Undefined -> call = Ok PrimFloat.nan)
    /\ (JS.get data "price" = Ok Null -> call = Ok PrimFloat.zero)
    /\ (forall n, JS.get data "price" = Ok (Num n) -> call = Ok n)
    /\ (forall b, JS.get data "price" = Ok (Bool b) ->
          call = Ok (if b then PrimFloat.one else PrimFloat.zero))
    /\ (data = Null -> call = Err TypeError).
Proof.
  intros L resp this tokenAddress data Hok Hjson call. unfold call.
  rewrite (tokenPrice_answered L resp this tokenAddress data Hok Hjson).
  repeat split; try (intros ->; reflexivity);
    intros; match goal with H : JS.get _ _ = _ |- _ => rewrite H end; reflexivity.
Qed.

Lemma tokenPrice_does_not_validate_witness :
  outcome (tokenPrice Stub.lib (mock (success (Obj [("cost", Str "1.5")])))
             Stub.sdk Stub.tokenA_key) = Ok PrimFloat.nan.
Proof.
  destruct (tokenPrice_does_not_validate Stub.lib
              (success (Obj [("cost", Str "1.5")])) Stub.sdk Stub.tokenA_key
              (Obj [("cost", Str "1.5")]) eq_refl eq_refl) as (Hmissing & _).
  apply Hmissing. reflexivity.
Defined.

(** X16. An answer without amounts is not refused: when [swapTx] or
    [swapIx] returns on an answer that lacks [amountOut] or [amountOutUi],
    the amount in the result is NaN; and a numeric amount is passed on as
    it is. *)
Theorem missing_amounts_become_NaN :
  forall (L : Externals) (resp : Response) (this : SwapSDK)
         (params : SwapRequestParams) (data : value),
    ok resp = true -> json resp = Ok data ->
    (forall r, outcome (swapTx L (mock resp) this params) = Ok r ->
       (JS.get data "amountOut" = Ok Undefined -> amountOut r = PrimFloat.nan)
       /\ (JS.get data "amountOutUi" = Ok Undefined -> amountOutUi r = PrimFloat.nan)
       /\ (forall n, JS.get data "amountOut" = Ok (Num n) -> amountOut r = n))
    /\ (forall r, outcome (swapIx L (mock resp) this params) = Ok r ->
          (JS.get data "amountOut" = Ok Undefined -> ix_amountOut r = PrimFloat.nan)
          /\ (JS.get data "amountOutUi" = Ok Undefined -> ix_amountOutUi r = PrimFloat.nan)
          /\ (forall n, JS.get data "amountOut" = Ok (Num n) -> ix_amountOut r = n)).
Proof.
  intros L resp this params data Hok Hjson.
  rewrite (swapTx_answered L resp this params data Hok Hjson).
  rewrite (swapIx_answered L resp this params data Hok Hjson).
  split; intros r Hr; [unfold swapTx_body in Hr | unfold swapIx_body in Hr];
    steps Hr; simpl; repeat split; intros;
    repeat match goal with
           | H1 : JS.get data ?k = Ok ?a, H2 : JS.get data ?k = Ok ?b |- _ =>
               rewrite H1 in H2; inversion H2; subst; clear H2
           end;
    match goal with
    | H : Number L _ = Ok ?x |- ?x = _ => simpl in H; now inversion H
    end.
Qed.

Lemma missing_amounts_become_NaN_witness :
  exists r,
    outcome (swapTx Stub.lib (mock (success Cases.bareQuote)) Stub.sdk Stub.params)
      = Ok r
    /\ amountOut r = PrimFloat.nan /\ amountOutUi r = PrimFloat.nan.
Proof.
  destruct (missing_amounts_become_NaN Stub.lib (success Cases.bareQuote)
              Stub.sdk Stub.params Cases.bareQuote eq_refl eq_refl) as [Htx _].
  eexists. split; [vm_compute; reflexivity|].
  match goal with
  | |- amountOut ?r = _ /\ _ =>
      destruct (Htx r ltac:(vm_compute; reflexivity)) as (H1 & H2 & _)
  end.
  split; [apply H1 | apply H2]; reflexivity.
Defined.

(** X17. Inside a group the same leniency holds as at the top: a group
    that is an object without [instructions], [cleanupInstructions] and
    [signers] converts to a group in which all three are empty, and an
    instruction without [keys] gets no keys.  A group that is [null]
    and an instruction without [programId] make the conversion throw. *)
Theorem group_fields_default_but_programId_does_not :
  forall (L : Externals) (props : list (string * value)),
    (JS.lookup "instructions" props = None ->
     JS.lookup "cleanupInstructions" props = None ->
     JS.lookup "signers" props = None ->
     convertGroup L (Obj props)
     = Ok {| instructions := []; cleanupInstructions := [];
             group_signers := Arr [] |})
    /\ convertGroup L Null = Err TypeError
    /\ (JS.lookup "keys" props = None ->
        forall i, convertAPIInstruction L (Obj props) = Ok i -> keys i = [])
    /\ (JS.lookup "programId" props = None ->
        exists e, convertAPIInstruction L (Obj props) = Err e).
Proof.
  intros L props. split; [|split; [reflexivity|split]].
  - intros Hi Hc Hs. unfold convertGroup. simpl. now rewrite Hi, Hc, Hs.
  - intros Hk i Hi. unfold convertAPIInstruction in Hi. simpl in Hi.
    rewrite Hk in Hi. simpl in Hi. steps Hi. reflexivity.
  - intros Hp.
    destruct (result_cases (convertAPIInstruction L (Obj props)))
      as [[i Hi]|[e He]]; [|eauto].
    exfalso. unfold convertAPIInstruction in Hi. steps Hi.
    match goal with
    | Hg : JS.get (Obj props) "programId" = Ok ?v, Hn : new_PublicKey L ?v = Ok _ |- _ =>
        simpl in Hg; rewrite Hp in Hg; inversion Hg; subst; discriminate Hn
    end.
Qed.

Lemma group_fields_default_but_programId_does_not_witness :
  convertGroup Stub.lib (Obj [])
  = Ok {| instructions := []; cleanupInstructions := []; group_signers := Arr [] |}
  /\ exists e, convertAPIInstruction Stub.lib (Obj [("data", Str "swap")]) = Err e.
Proof.
  split.
  - now apply (group_fields_default_but_programId_does_not Stub.lib []).
  - now apply (group_fields_default_but_programId_does_not Stub.lib
                 [("data", Str "swap")]).
Defined.

(** X18. The address that is refused first decides how [swapIx] ends:
    when the lookup accounts before it all parse, the call throws exactly
    what the key constructor threw on it, whatever follows it in the list
    and whatever else is wrong with the answer. *)
Theorem first_refused_account_decides :
  forall (L : Externals) (resp : Response) (this : SwapSDK)
         (params : SwapRequestParams) (data : value)
         (good : list value) (bad : value) (rest : list value) (e : exn),
    ok resp = true -> json resp = Ok data ->
    JS.get data "lookUpAccounts" = Ok (Arr (good ++ bad :: rest)) ->
    Forall (fun a => is_ok (new_PublicKey L a) = true) good ->
    new_PublicKey L bad = Err e ->
    outcome (swapIx L (mock resp) this params) = Err e.
Proof.
  intros L resp this params data good bad rest e Hok Hjson Hget Hgood Hbad.
  rewrite (swapIx_answered L resp this params data Hok Hjson).
  assert (Hm : mapM (new_PublicKey L) (good ++ bad :: rest) = Err e).
  { clear Hget. induction good as [|a good IH]; simpl.
    - now rewrite Hbad.
    - inversion Hgood as [|? ? Ha Hrest]; subst.
      destruct (new_PublicKey L a); [|simpl in Ha; discriminate].
      simpl. rewrite (IH Hrest). reflexivity. }
  unfold swapIx_body, convertLookupAccounts. rewrite Hget. simpl.
  rewrite Hm. reflexivity.
Qed.

Lemma first_refused_account_decides_witness :
  outcome (swapIx Stub.lib (mock (success Cases.twiceBadQuote)) Stub.sdk Stub.params)
  = Err (Error "Invalid public key input").
Proof.
  apply (first_refused_account_decides Stub.lib (success Cases.twiceBadQuote)
           Stub.sdk Stub.params Cases.twiceBadQuote
           [Str "So11111111111111111111111111111111111111112"]
           (Str "abc") [Str "0OIl"]);
    try reflexivity.
  repeat constructor.
Defined.

(** X19. One signer that cannot be decoded ends [swapTx]: an entry of
    [signers] that is not a text (a number, [null], an object) makes the
    decoder throw a type error, and with any entry that the decoding
    refuses the call throws; no result signed by the others is returned. *)
Theorem undecodable_signer_aborts_swapTx :
  forall (L : Externals) (resp : Response) (this : SwapSDK)
         (params : SwapRequestParams) (data : value)
         (secrets : list value) (s : value),
    ok resp = true -> json resp = Ok data ->
    JS.get data "signers" = Ok (Arr secrets) ->
    In s secrets ->
    ((forall text, s <> Str text) -> keypairOfSigner L s = Err TypeError)
    /\ (forall e, keypairOfSigner L s = Err e ->
          exists e', outcome (swapTx L (mock resp) this params) = Err e').
Proof.
  intros L resp this params data secrets s Hok Hjson Hsecrets Hin. split.
  - intros Hnot. destruct s; try reflexivity. now destruct (Hnot s).
  - intros e Hbad.
    rewrite (swapTx_answered L resp this params data Hok Hjson).
    destruct (result_cases (swapTx_body L data)) as [[r Hr]|[e' He']]; [|eauto].
    exfalso. unfold swapTx_body in Hr. steps Hr.
    match goal with
    | Hg : JS.get data "signers" = Ok ?v, Hm : JS.map ?v _ = Ok ?ks |- _ =>
        rewrite Hsecrets in Hg; inversion Hg; subst; clear Hg; simpl in Hm;
        destruct (mapM_Err_In _ _ _ _ Hin Hbad) as (e' & He'); congruence
    end.
Qed.

Lemma undecodable_signer_aborts_swapTx_witness :
  exists e,
    outcome (swapTx Stub.lib (mock (success Cases.numberSignerQuote))
               Stub.sdk Stub.params) = Err e.
Proof.
  destruct (undecodable_signer_aborts_swapTx Stub.lib
              (success Cases.numberSignerQuote) Stub.sdk Stub.params
              Cases.numberSignerQuote [Str Stub.secret0; Num 7] (Num 7)
              eq_refl eq_refl eq_refl ltac:(simpl; auto)) as [Htype Habort].
  apply (Habort TypeError). apply Htype. intros text. discriminate.
Defined.

(** ** More on simulation *)

Lemma simulateTransaction_trace (L : Externals) (connection : Connection L)
    (transaction : VersionedTransaction L) :
  trace (simulateTransaction L connection transaction)
  = [EvSimulate (Obj [("commitment", Str "confirmed")])].
Proof.
  unfold simulateTransaction, await, settle, trace.
  destruct (conn_simulateTransaction L connection transaction _); reflexivity.
Qed.

(** X20. [simulateTransaction] asks the node once, with the commitment
    ["confirmed"], and does nothing else to the outside.  A failure of the
    node comes out of the call as it is, and an answer without [value]
    makes the call throw a type error. *)
Theorem simulateTransaction_asks_the_node_once :
  forall (L : Externals) (connection : Connection L)
         (transaction : VersionedTransaction L),
    trace (simulateTransaction L connection transaction)
      = [EvSimulate (Obj [("commitment", Str "confirmed")])]
    /\ (forall e,
          conn_simulateTransaction L connection transaction
            (Obj [("commitment", Str "confirmed")]) = Err e ->
          outcome (simulateTransaction L connection transaction) = Err e)
    /\ (forall response,
          conn_simulateTransaction L connection transaction
            (Obj [("commitment", Str "confirmed")]) = Ok response ->
          JS.get response "value" = Ok Undefined ->
          outcome (simulateTransaction L connection transaction) = Err TypeError).
Proof.
  intros L connection transaction.
  split; [apply simulateTransaction_trace|]. split.
  - intros e He. unfold simulateTransaction, await, outcome. now rewrite He.
  - intros response Hr Hv.
    unfold simulateTransaction, await, settle, outcome. rewrite Hr. simpl.
    rewrite Hv. reflexivity.
Qed.

Lemma simulateTransaction_asks_the_node_once_witness :
  simulateTransaction Stub.lib Cases.deadNode Stub.emptyTx
  = ([EvSimulate (Obj [("commitment", Str "confirmed")])],
     Err (Error "failed to fetch")).
Proof.
  destruct (simulateTransaction_asks_the_node_once Stub.lib Cases.deadNode
              Stub.emptyTx) as (Ht & He & _).
  specialize (He (Error "failed to fetch") eq_refl).
  destruct (simulateTransaction Stub.lib Cases.deadNode Stub.emptyTx) as [t r].
  unfold trace, outcome in *. simpl in *. now subst.
Defined.

(** X21. Only the text of the error counts.  An error payload that is an
    object is never translated, even when it names the lock limit inside:
    the call returns the outcome, or throws a type error when the object
    hides [toString]; it never throws [TooManyAccountsLockError].  And
    whenever that error is thrown, for any payload, its message is the one
    fixed sentence that points to [reduceToTwoHops]. *)
Theorem object_errors_are_never_translated :
  forall (L : Externals) (connection : Connection L)
         (transaction : VersionedTransaction L) (response value err : value),
    conn_simulateTransaction L connection transaction
      (Obj [("commitment", Str "confirmed")]) = Ok response ->
    JS.get response "value" = Ok value ->
    JS.get value "err" = Ok err ->
    let call := outcome (simulateTransaction L connection transaction) in
    (forall props, err = Obj props ->
       (JS.hasOwn "toString" props = false -> call = Ok value)
       /\ (JS.hasOwn "toString" props = true -> call = Err TypeError))
    /\ (forall m, call = Err (TooManyAccountsLockError m) ->
          m = lock_message /\ substring "reduceToTwoHops" m).
Proof.
  intros L connection transaction response value err Hsim Hvalue Herr call.
  assert (Hcall : call = (let* _ := (if JS.truthy err
                                     then handleSimulationError L err
                                     else Ok tt) in Ok value)).
  { unfold call, simulateTransaction, await, settle, outcome.
    rewrite Hsim. simpl. rewrite Hvalue. simpl. rewrite Herr. reflexivity. }
  split.
  - intros props ->. rewrite Hcall. unfold handleSimulationError. simpl.
    split; intros ->; reflexivity.
  - intros m Hm. rewrite Hcall in Hm.
    destruct (JS.truthy err); [|discriminate].
    unfold handleSimulationError in Hm.
    destruct (toString L err) as [s|e] eqn:Hs; simpl in Hm;
      [|apply toString_throws_TypeError in Hs; subst; discriminate].
    destruct (JS.includes "TooManyAccountLocks" s); simpl in Hm; [|discriminate].
    inversion Hm; subst. split; [reflexivity|].
    apply includes_spec. reflexivity.
Qed.

Lemma object_errors_are_never_translated_witness :
  outcome (simulateTransaction Stub.lib (Stub.node Cases.objectError) Stub.emptyTx)
  = Ok (Stub.simulated Cases.objectError).
Proof.
  destruct (object_errors_are_never_translated Stub.lib
              (Stub.node Cases.objectError) Stub.emptyTx
              (Stub.rpcAnswer Cases.objectError)
              (Stub.simulated Cases.objectError) Cases.objectError
              eq_refl eq_refl eq_refl) as [Hobj _].
  apply (Hobj [("InstructionError", Arr [Num 0; Str "TooManyAccountLocks"])]);
    reflexivity.
Defined.
